(** * dgml-utils: structural chunking of a DGML tree

    A shallow embedding of [dgml_utils/segmentation.py] ([get_chunks] with
    its two closures [_build_chunks] and [_traverse]) and of the constants
    of [config.py], with the properties of the chunk list it returns.

    Python values are modelled as follows.
    - [str] is a list of characters ([list ascii]); [len] is [length],
      slicing is [py_slice], [+] is [++].
    - [int] is [Z].
    - an lxml element is a rose tree [Node]; since the code walks upwards
      ([iterancestors], [xml_nth_ancestor]) an element is always handled
      together with the chain of its ancestors, nearest first.
    - the two [nonlocal] variables of [get_chunks] are the record [State],
      threaded through the traversal.
    - an exception is the [Raise] case of [result]. *)

From Stdlib Require Import ZArith Lia Bool Ascii String List.
Import ListNotations.
Local Open Scope Z_scope.

Set Implicit Arguments.
Set Warnings "-register-all".

(** ** Python primitives *)

Definition str := list ascii.

Definition lit (s : string) : str := list_ascii_of_string s.

Definition len {A} (l : list A) : Z := Z.of_nat (List.length l).

Inductive exn := ValueError | IndexError.

Inductive result (A : Type) :=
| Ok (a : A)
| Raise (e : exn).
Arguments Ok {A} a.
Arguments Raise {A} e.

Definition bind {A B} (r : result A) (k : A -> result B) : result B :=
  match r with
  | Ok a => k a
  | Raise e => Raise e
  end.

Notation "x <- c ;; k" := (bind c (fun x => k))
  (at level 61, c at next level, right associativity).

(** [len(range(lo, hi, step))] for a non-zero step. *)
Definition range_len (lo hi step : Z) : Z :=
  if (0 <? step) && (lo <? hi) then 1 + (hi - 1 - lo) / step
  else if (step <? 0) && (hi <? lo) then 1 + (lo - 1 - hi) / (- step)
  else 0.

(** [range(lo, hi, step)]: a zero step raises [ValueError]. *)
Definition py_range (lo hi step : Z) : result (list Z) :=
  if step =? 0 then Raise ValueError
  else Ok (map (fun k => lo + Z.of_nat k * step)
               (seq 0 (Z.to_nat (range_len lo hi step)))).

(** A slice bound is taken from the end when negative and clipped to the
    sequence. *)
Definition clip_index (n i : Z) : Z :=
  if i <? 0 then Z.max 0 (n + i) else Z.min n i.

(** [s[i:j]] *)
Definition py_slice {A} (s : list A) (i j : Z) : list A :=
  let a := clip_index (len s) i in
  let b := clip_index (len s) j in
  firstn (Z.to_nat (b - a)) (skipn (Z.to_nat a) s).

(** [l[0]] *)
Definition py_first {A} (l : list A) : result A :=
  match l with
  | x :: _ => Ok x
  | [] => Raise IndexError
  end.

(** Monadic left fold: a [for] loop whose body may raise. *)
Fixpoint foldM {A S} (f : S -> A -> result S) (l : list A) (s : S) : result S :=
  match l with
  | [] => Ok s
  | x :: l' => s' <- f s x ;; foldM f l' s'
  end.

(** ** config.py *)

Definition TABLE_NAME : string := "{http://www.w3.org/1999/xhtml}table".
Definition STRUCTURE_KEY : string := "structure".
Definition DEFAULT_MIN_CHUNK_SIZE : Z := 8.
Definition DEFAULT_SUBCHUNK_TABLES : bool := false.
Definition DEFAULT_WHITESPACE_NORMALIZE_TEXT : bool := true.

(** ** The document tree *)

(** An element: its tag, the value of its [structure] attribute when the
    attribute is present, its text content and its child elements. *)
Inductive Node := mkNode {
  tag : string;
  structure_attr : option string;
  node_text : string;
  children : list Node
}.

(** An element in its document: the ancestors, nearest first, and the
    element itself. *)
Definition Loc : Type := list Node * Node.

Section Node_induction.
Variable P : Node -> Prop.
Hypothesis step : forall t s x cs, Forall P cs -> P (mkNode t s x cs).

Fixpoint Node_forall_ind (n : Node) : P n :=
  match n with
  | mkNode t s x cs =>
      step t s x
        ((fix all (l : list Node) : Forall P l :=
            match l with
            | [] => Forall_nil P
            | c :: l' => Forall_cons c (Node_forall_ind c) (all l')
            end) cs)
  end.
End Node_induction.

(** ** models.Chunk *)

Module Chunk.
Inductive t := mk {
  tag : string;
  text : str;
  xml : string;
  structure : string;
  xpath : string;
  parent : option t
}.

Definition set_parent (p : option t) (c : t) : t :=
  mk (tag c) (text c) (xml c) (structure c) (xpath c) p.

(** Modelled from the spec: [Chunk.__add__] of [dgml_utils/models.py],
    which is not among the sources.  Section 4.3: the pending buffer's
    text is concatenated before the current chunk's text; the current
    chunk's own tag, structure, raw form and locator are retained, only
    the text is the concatenation. *)
Definition add (pending current : t) : t :=
  mk (tag current) (text pending ++ text current) (xml current)
     (structure current) (xpath current) (parent current).
End Chunk.

Abbreviation Chunk := Chunk.t.

(** ** Collaborators of the segmentation core

    [dgml_utils.conversions] and [dgml_utils.locators] are outside the
    core: the renderers, the tag cleaner, the serializer and the locator
    are taken as an interface.  Each receives the element in its
    document; the renderers also receive the whitespace flag. *)
Class Collaborators := {
  simplified_xml : Loc -> bool -> str;
  xhtml_table_to_text : Loc -> bool -> str;
  text_node_to_text : Loc -> bool -> str;
  clean_tag : Node -> string;
  tostring : Loc -> string;
  xpath : Loc -> string
}.

(** Modelled from the spec: [xml_nth_ancestor] of
    [dgml_utils/conversions.py], which is not among the sources.
    Section 6: [ancestor(node, n)] is the node [n] levels up, clipped at
    the root.  The call at line 114 also passes the maximal length and
    the whitespace flag, which play no part in that description. *)
Fixpoint nth_ancestor (n : nat) (ancs : list Node) (node : Node) : Loc :=
  match n, ancs with
  | S n', p :: ancs' => nth_ancestor n' ancs' p
  | _, _ => (ancs, node)
  end.

Definition xml_nth_ancestor (l : Loc) (n : Z) : Loc :=
  nth_ancestor (Z.to_nat n) (fst l) (snd l).

(** ** segmentation.py *)

Definition is_structural (node : Node) : bool :=
  match structure_attr node with
  | Some _ => true
  | None => false
  end.

Definition is_descendant_of_structural (ancs : list Node) : bool :=
  existsb is_structural ancs.

Fixpoint has_structural_children (node : Node) : bool :=
  match node with
  | mkNode _ _ _ cs =>
      existsb (fun c => is_structural c || has_structural_children c) cs
  end.

Definition is_force_prepend_chunk (node : Node) : bool :=
  match structure_attr node with
  | Some s => String.eqb s "lim"
  | None => false
  end.

(** The keyword arguments of [get_chunks]. *)
Record Config := {
  min_text_length : Z;
  max_text_length : Z;
  whitespace_normalize_text : bool;
  sub_chunk_tables : bool;
  xml_mode : bool;
  parent_hierarchy_levels : Z
}.

(** [final_chunks] and [prepended_small_chunk]. *)
Record State := {
  final_chunks : list Chunk;
  prepended_small_chunk : option Chunk
}.

Definition init : State := Build_State [] None.

Section Segmentation.
Context {ext : Collaborators}.
Variable cfg : Config.

(** The text [_build_chunks] splits (lines 70-78). *)
Definition render (l : Loc) : str :=
  if xml_mode cfg then simplified_xml l (whitespace_normalize_text cfg)
  else if String.eqb (tag (snd l)) TABLE_NAME
       then xhtml_table_to_text l (whitespace_normalize_text cfg)
       else text_node_to_text l (whitespace_normalize_text cfg).

(** Line 80. *)
Definition node_text_splits (node_text : str) : result (list str) :=
  idx <- py_range 0 (len node_text) (max_text_length cfg) ;;
  Ok (map (fun i => py_slice node_text i (i + max_text_length cfg)) idx).

Definition _build_chunks (l : Loc) : result (list Chunk) :=
  splits <- node_text_splits (render l) ;;
  Ok (map (fun text =>
             Chunk.mk (clean_tag (snd l)) text (tostring l)
                      (match structure_attr (snd l) with
                       | Some s => s
                       | None => EmptyString
                       end)
                      (xpath l) None)
          splits).

(** Lines 98-102. *)
Definition is_table_leaf_node (node : Node) : bool :=
  String.eqb (tag node) TABLE_NAME && negb (sub_chunk_tables cfg).

Definition is_text_leaf_node (node : Node) : bool :=
  is_structural node && negb (has_structural_children node).

Definition is_structure_orphaned_node (ancs : list Node) (node : Node) : bool :=
  is_descendant_of_structural ancs && negb (has_structural_children node).

Definition is_leaf (ancs : list Node) (node : Node) : bool :=
  is_table_leaf_node node || is_text_leaf_node node
  || is_structure_orphaned_node ancs node.

(** Lines 109-130: the context chunk of a leaf. *)
Definition ancestor_chunk (l : Loc) : result (option Chunk) :=
  if xml_mode cfg && (0 <? parent_hierarchy_levels cfg) then
    cs <- _build_chunks (xml_nth_ancestor l (parent_hierarchy_levels cfg)) ;;
    c <- py_first cs ;;
    Ok (Some c)
  else Ok None.

(** Lines 135-143: one iteration of the loop over [sub_chunks], after
    the parent has been set.  A [Chunk] object is true in the test of
    line 135 and [sub_chunks] is not empty inside its own loop, so the
    test is whether a chunk is pending. *)
Definition merge_step (force : bool) (st : State) (chunk : Chunk) : State :=
  let chunk' :=
    match prepended_small_chunk st with
    | Some p => Chunk.add p chunk
    | None => chunk
    end in
  if (len (Chunk.text chunk') <? min_text_length cfg) || force
  then Build_State (final_chunks st) (Some chunk')
  else Build_State (final_chunks st ++ [chunk']) None.

(** The chunks of a leaf as the loop sees them: line 133 applied to
    every element of [sub_chunks]. *)
Definition provisional (l : Loc) : result (list Chunk) :=
  sub_chunks <- _build_chunks l ;;
  ac <- ancestor_chunk l ;;
  Ok (map (Chunk.set_parent ac) sub_chunks).

(** Lines 103-143: the leaf branch of [_traverse]. *)
Definition emit_leaf (l : Loc) (st : State) : result State :=
  chunks <- provisional l ;;
  Ok (fold_left (merge_step (is_force_prepend_chunk (snd l))) chunks st).

(** Lines 95-147. *)
Fixpoint _traverse (ancs : list Node) (node : Node) (st : State)
  {struct node} : result State :=
  if is_leaf ancs node then emit_leaf (ancs, node) st
  else
    match node with
    | mkNode _ _ _ cs =>
        (fix each (l : list Node) (st : State) : result State :=
           match l with
           | [] => Ok st
           | child :: l' =>
               st' <- _traverse (node :: ancs) child st ;; each l' st'
           end) cs st
    end.

(** Lines 151-153. *)
Definition flush (st : State) : list Chunk :=
  match prepended_small_chunk st with
  | Some p => final_chunks st ++ [p]
  | None => final_chunks st
  end.

(** Lines 57-159.  The branch at line 155 is a placeholder that does
    nothing. *)
Definition get_chunks (ancs : list Node) (node : Node) : result (list Chunk) :=
  st <- _traverse ancs node init ;;
  Ok (flush st).

End Segmentation.

Arguments get_chunks {ext} cfg ancs node.

(** ** Sample collaborators and documents

    Plain descendant-text extraction, used for every rendering mode, with
    the tag as cleaned tag and locator. *)

Fixpoint descendant_text (node : Node) : str :=
  match node with
  | mkNode _ _ x cs => lit x ++ flat_map descendant_text cs
  end.

Definition plain : Collaborators := {|
  simplified_xml := fun l _ => descendant_text (snd l);
  xhtml_table_to_text := fun l _ => descendant_text (snd l);
  text_node_to_text := fun l _ => descendant_text (snd l);
  clean_tag := tag;
  tostring := fun l => node_text (snd l);
  xpath := fun l => tag (snd l)
|}.

Definition elem (t : string) (cs : list Node) : Node := mkNode t None EmptyString cs.
Definition marked (t s x : string) : Node := mkNode t (Some s) x [].

Definition text_cfg (lo hi : Z) : Config :=
  Build_Config lo hi DEFAULT_WHITESPACE_NORMALIZE_TEXT DEFAULT_SUBCHUNK_TABLES false 0.

Definition xml_cfg (lo hi levels : Z) : Config :=
  Build_Config lo hi DEFAULT_WHITESPACE_NORMALIZE_TEXT DEFAULT_SUBCHUNK_TABLES true levels.

Definition texts (r : result (list Chunk)) : result (list string) :=
  cs <- r ;; Ok (map (fun c => string_of_list_ascii (Chunk.text c)) cs).

Definition doc_small_then_full : Node :=
  elem "doc" [marked "p" "p" "abcde"; marked "p" "p" "0123456789"].

Definition lim_item : Node := marked "lim" "lim" "1.".

Definition doc_lim : Node :=
  elem "doc" [marked "p" "p" "ab"; lim_item; marked "p" "p" "0123456789"].

Definition filled (n : nat) : string := string_of_list_ascii (repeat "x"%char n).

Definition long_leaf : Node := marked "p" "p" (filled 250).

Definition doc_5_20 : Node :=
  elem "doc" [marked "p" "p" (filled 5); marked "p" "p" (filled 20)].

Definition doc_lim_50_3 : Node :=
  elem "doc" [marked "lim" "lim" (filled 50); marked "p" "p" (filled 3)].

Definition lengths (r : result (list Chunk)) : result (list Z) :=
  cs <- r ;; Ok (map (fun c => len (Chunk.text c)) cs).

Definition sub_tables_cfg (lo hi : Z) : Config :=
  Build_Config lo hi DEFAULT_WHITESPACE_NORMALIZE_TEXT true false 0.

Definition table_rows : list Node :=
  [mkNode "tr" None "row one." []; mkNode "tr" None "row two." []].

Definition bare_table : Node := mkNode TABLE_NAME None EmptyString table_rows.

Definition marked_table : Node := mkNode TABLE_NAME (Some "table"%string) EmptyString table_rows.

Definition doc_table : Node := elem "doc" [bare_table].

(** A renderer that gives the text content of the element alone. *)
Definition own_text : Collaborators := {|
  simplified_xml := fun l _ => lit (node_text (snd l));
  xhtml_table_to_text := fun l _ => lit (node_text (snd l));
  text_node_to_text := fun l _ => lit (node_text (snd l));
  clean_tag := tag;
  tostring := fun l => node_text (snd l);
  xpath := fun l => tag (snd l)
|}.

(** ** Notions used in the statements *)

(** [n] windows of [m] characters taken from the front of [s]. *)
Fixpoint windows (n m : nat) (s : str) : list str :=
  match n with
  | O => []
  | S n' => firstn m s :: windows n' m (skipn m s)
  end.

(** The number of windows line 80 cuts a text of length [L] into. *)
Definition window_count (cfg : Config) (L : Z) : nat :=
  Z.to_nat (range_len 0 L (max_text_length cfg)).

(** The proper descendants of a node, in document order. *)
Fixpoint descendants (node : Node) : list Node :=
  match node with
  | mkNode _ _ _ cs => flat_map (fun c => c :: descendants c) cs
  end.

Definition carries_marker (node : Node) : Prop := structure_attr node <> None.

Definition marked_descendant (node : Node) : Prop :=
  exists d, In d (descendants node) /\ carries_marker d.

Definition marked_ancestor (ancs : list Node) : Prop :=
  exists a, In a ancs /\ carries_marker a.

Definition table_typed (node : Node) : Prop := tag node = TABLE_NAME.

(** The leaf rule in the words of section 4.1 of the specification. *)
Definition spec_leaf (sub_tables : bool) (ancs : list Node) (node : Node) : Prop :=
  (table_typed node /\ sub_tables = false)
  \/ (carries_marker node /\ ~ marked_descendant node)
  \/ (marked_ancestor ancs /\ ~ marked_descendant node).

(** The same tree with every text content rewritten by [f]. *)
Fixpoint map_text (f : string -> string) (node : Node) : Node :=
  match node with
  | mkNode t s x cs => mkNode t s (f x) (map (map_text f) cs)
  end.

(** The loop of lines 146-147 over the children of a branch. *)
Definition traverse_children {ext : Collaborators} (cfg : Config)
  (ancs : list Node) (node : Node) (st : State) : result State :=
  foldM (fun st child => _traverse cfg (node :: ancs) child st) (children node) st.

(** The leaf-classified nodes the traversal of [node] reaches, in
    document order. *)
Fixpoint leaves (cfg : Config) (ancs : list Node) (node : Node) : list Loc :=
  if is_leaf cfg ancs node then [(ancs, node)]
  else
    match node with
    | mkNode _ _ _ cs => flat_map (leaves cfg (node :: ancs)) cs
    end.

(** The leaf branch of [_traverse] run over a list of leaves. *)
Definition run_leaves {ext : Collaborators} (cfg : Config)
  (ls : list Loc) (st : State) : result State :=
  foldM (fun st l => emit_leaf cfg l st) ls st.

Definition pending (st : State) : list Chunk :=
  match prepended_small_chunk st with
  | Some p => [p]
  | None => []
  end.

Definition pending_text (st : State) : str :=
  concat (map Chunk.text (pending st)).

(** Everything the traversal holds so far: the emitted texts followed by
    the text of the pending buffer. *)
Definition held_text (st : State) : str :=
  concat (map Chunk.text (final_chunks st)) ++ pending_text st.

Definition is_prefix (p s : str) : Prop := exists suffix, s = p ++ suffix.

(** The length a returned chunk cannot exceed when no leaf is
    force-merge: a window preceded by a pending buffer that was shorter
    than the minimum. *)
Definition merged_bound (cfg : Config) : Z :=
  max_text_length cfg + Z.max 0 (min_text_length cfg - 1).

Definition force_free (ls : list Loc) : Prop :=
  Forall (fun l => is_force_prepend_chunk (snd l) = false) ls.

(** The state the bound is proved on: what is emitted is within the
    bound, what is pending is below the minimum. *)
Definition within_bound (cfg : Config) (st : State) : Prop :=
  Forall (fun q => len (Chunk.text q) <= merged_bound cfg) (final_chunks st)
  /\ Forall (fun p => len (Chunk.text p) < min_text_length cfg
                     /\ len (Chunk.text p) <= merged_bound cfg) (pending st).

(** What becomes of a buffer text [p] that was pending when the emitted
    list was [fin]: it is still the front of the pending buffer and
    nothing was emitted since, or the next chunk emitted after [fin]
    starts with it and goes on. *)
Definition carried (p : str) (fin : list Chunk) (st : State) : Prop :=
  (final_chunks st = fin
   /\ exists q, prepended_small_chunk st = Some q /\ is_prefix p (Chunk.text q))
  \/ (exists q rest suffix,
        final_chunks st = fin ++ q :: rest
        /\ Chunk.text q = p ++ suffix /\ suffix <> []).

(** The chunk [q] carries as parent the context chunk computed for one
    of the leaves [ls]. *)
Definition parent_from {ext : Collaborators} (cfg : Config) (ls : list Loc)
  (q : Chunk) : Prop :=
  exists l, In l ls /\ ancestor_chunk cfg l = Ok (Chunk.parent q).

(** The number of levels actually climbed from a node with ancestors
    [ancs] when [n] are asked for. *)
Definition climbed (n : Z) (ancs : list Node) : nat :=
  Nat.min (Z.to_nat n) (length ancs).

Definition unmarked (node : Node) : Prop := structure_attr node = None.

Definition not_table (node : Node) : Prop := tag node <> TABLE_NAME.

(** ** Notions used for the further properties *)

(** [l1] is [l2] with some elements left out, the order kept. *)
Inductive subseq {A : Type} : list A -> list A -> Prop :=
| subseq_nil : subseq [] []
| subseq_skip : forall x l1 l2, subseq l1 l2 -> subseq l1 (x :: l2)
| subseq_take : forall x l1 l2, subseq l1 l2 -> subseq (x :: l1) (x :: l2).

(** The condition of line 110. *)
Definition hierarchy_mode (cfg : Config) : bool :=
  xml_mode cfg && (0 <? parent_hierarchy_levels cfg).

(** The [structure] field line 89 gives the chunks of a node. *)
Definition structure_or_empty (node : Node) : string :=
  match structure_attr node with
  | Some s => s
  | None => EmptyString
  end.

(** The state [st] reached with [pre] already in the output list. *)
Definition shift (pre : list Chunk) (st : State) : State :=
  Build_State (pre ++ final_chunks st) (prepended_small_chunk st).

Definition shifted (pre : list Chunk) (r : result State) : result State :=
  st <- r ;; Ok (shift pre st).

(** The chunks the leaves hand to the merger, leaf after leaf. *)
Fixpoint gather {ext : Collaborators} (cfg : Config) (ls : list Loc)
  : result (list Chunk) :=
  match ls with
  | [] => Ok []
  | l :: ls' =>
      chunks <- provisional cfg l ;;
      rest <- gather cfg ls' ;;
      Ok (chunks ++ rest)
  end.

Definition all_forced (ls : list Loc) : Prop :=
  Forall (fun l => is_force_prepend_chunk (snd l) = true) ls.

(** ** Notions used for the context chunk *)

(** The chunks the leaves hand to the merger, each with the leaf it was
    built from. *)
Fixpoint handed {ext : Collaborators} (cfg : Config) (ls : list Loc)
  : result (list (Loc * Chunk)) :=
  match ls with
  | [] => Ok []
  | l :: ls' =>
      chunks <- provisional cfg l ;;
      rest <- handed cfg ls' ;;
      Ok (map (pair l) chunks ++ rest)
  end.

(** A run of consecutive handed chunks that end up in one returned
    chunk: the first one and those merged behind it. *)
Definition Group : Type := ((Loc * Chunk) * list (Loc * Chunk))%type.

Definition members (g : Group) : list (Loc * Chunk) := fst g :: snd g.

(** Line 136 applied along the run: the pending chunk plus the next. *)
Definition merged_chunk (g : Group) : Chunk :=
  fold_left Chunk.add (map snd (snd g)) (snd (fst g)).

Definition last_member (g : Group) : Loc * Chunk := last (snd g) (fst g).

Definition extend (open : option Group) (m : Loc * Chunk) : Group :=
  match open with
  | None => (m, [])
  | Some g => (fst g, snd g ++ [m])
  end.

Definition open_members (open : option Group) : list (Loc * Chunk) :=
  match open with
  | None => []
  | Some g => members g
  end.

(** The state reached after the handed chunks [hs]: the emitted chunks
    are the closed runs merged, the pending chunk is the open run
    merged. *)
Definition grouped (hs : list (Loc * Chunk)) (st : State) : Prop :=
  exists groups open,
    hs = flat_map members groups ++ open_members open
    /\ final_chunks st = map merged_chunk groups
    /\ prepended_small_chunk st = option_map merged_chunk open.

(** [ac] is the context chunk of the leaf [l]: the first chunk built
    from the node [xml_nth_ancestor] gives for it. *)
Definition context_of {ext : Collaborators} (cfg : Config) (l : Loc)
  (ac : Chunk) : Prop :=
  exists rest,
    _build_chunks cfg (xml_nth_ancestor l (parent_hierarchy_levels cfg))
    = Ok (ac :: rest).

Definition doc_two_sections : Node :=
  elem "doc" [mkNode "s" None "S:" [marked "p" "p" "ab"];
              mkNode "t" None "T:" [marked "p" "p" "0123456789"]].

Definition texts_and_parents (r : result (list Chunk))
  : result (list (string * option string)) :=
  cs <- r ;;
  Ok (map (fun c => (string_of_list_ascii (Chunk.text c),
                     option_map (fun a => string_of_list_ascii (Chunk.text a))
                                (Chunk.parent c))) cs).

(** * Properties *)

Ltac case_if :=
  match goal with |- context [if ?b then _ else _] => destruct b end.

Ltac case_if_eq H :=
  match goal with |- context [if ?b then _ else _] => destruct b eqn:H end.

(** ** The examples of section 8 of the specification *)

Example merged_5_20 :
  lengths (get_chunks (ext := plain) (text_cfg 8 100) [] doc_5_20) = Ok [25].
Proof. reflexivity. Qed.

Example forced_50_3 :
  lengths (get_chunks (ext := plain) (text_cfg 8 100) [] doc_lim_50_3) = Ok [53].
Proof. reflexivity. Qed.

Example split_250 :
  lengths (get_chunks (ext := plain) (text_cfg 8 100) [] long_leaf)
  = Ok [100; 100; 50].
Proof. reflexivity. Qed.

(** ** Splitting a rendered text *)

Lemma bind_Ok_inv {A B} (r : result A) (k : A -> result B) (b : B) :
  bind r k = Ok b -> exists a, r = Ok a /\ k a = Ok b.
Proof.
  destruct r as [a|e]; simpl; intros H; [eauto | discriminate].
Qed.

Lemma len_nonneg {A} (l : list A) : 0 <= len l.
Proof. unfold len; lia. Qed.

Lemma len_app {A} (l1 l2 : list A) : len (l1 ++ l2) = len l1 + len l2.
Proof. unfold len; rewrite length_app; lia. Qed.

Lemma py_slice_window {A} (s : list A) (i m : Z) :
  0 <= i -> 0 < m ->
  py_slice s i (i + m) = firstn (Z.to_nat m) (skipn (Z.to_nat i) s).
Proof.
  intros Hi Hm. unfold py_slice, clip_index, len.
  destruct (Z.ltb_spec i 0); [lia|].
  destruct (Z.ltb_spec (i + m) 0); [lia|].
  destruct (Z_lt_le_dec i (Z.of_nat (length s))) as [Hin|Hout].
  - rewrite (Z.min_r _ i) by lia.
    destruct (Z_le_gt_dec (i + m) (Z.of_nat (length s))).
    + rewrite Z.min_r by lia. f_equal. lia.
    + rewrite Z.min_l by lia.
      rewrite !firstn_all2; trivial; rewrite length_skipn; lia.
  - rewrite !Z.min_l by lia. rewrite Z.sub_diag. simpl.
    rewrite skipn_all2 by lia. now destruct (Z.to_nat m).
Qed.

Lemma windows_map (n m : nat) (s : str) :
  windows n m s = map (fun k => firstn m (skipn (k * m) s)) (seq 0 n).
Proof.
  revert s; induction n as [|n IH]; intros s; [reflexivity|].
  simpl windows. rewrite IH. cbn [seq map]. f_equal.
  rewrite <- seq_shift, map_map. apply map_ext; intros k.
  rewrite skipn_skipn. do 2 f_equal. lia.
Qed.

Lemma windows_length (n m : nat) (s : str) : length (windows n m s) = n.
Proof. rewrite windows_map, length_map, length_seq; reflexivity. Qed.

Lemma windows_nth (n m i : nat) (s : str) :
  (i < n)%nat -> nth i (windows n m s) [] = firstn m (skipn (i * m) s).
Proof.
  revert i s; induction n as [|n IH]; intros [|i] s Hi; try lia.
  - reflexivity.
  - cbn [windows nth]. rewrite IH by lia. rewrite skipn_skipn.
    do 2 f_equal. lia.
Qed.

Lemma firstn_plus {A} (a b : nat) (l : list A) :
  firstn (a + b) l = firstn a l ++ firstn b (skipn a l).
Proof.
  revert l; induction a as [|a IH]; intros [|x l]; simpl; trivial.
  - now destruct b.
  - now rewrite IH.
Qed.

Lemma windows_concat (n m : nat) (s : str) :
  concat (windows n m s) = firstn (n * m) s.
Proof.
  revert s; induction n as [|n IH]; intros s; [reflexivity|].
  simpl. rewrite IH, <- firstn_plus. reflexivity.
Qed.

(** The count of line 80 covers the text, and its last window is not
    empty. *)
Lemma window_count_bounds (cfg : Config) (L : Z) :
  0 < max_text_length cfg -> 0 <= L ->
  let n := Z.of_nat (window_count cfg L) in
  L <= n * max_text_length cfg /\ (0 < n -> (n - 1) * max_text_length cfg < L).
Proof.
  intros Hm HL. unfold window_count, range_len.
  destruct (Z.ltb_spec 0 (max_text_length cfg)); [|lia].
  destruct (Z.ltb_spec 0 L); simpl andb; cbv zeta.
  - assert (Hq : 0 <= (L - 1 - 0) / max_text_length cfg)
      by (apply Z.div_pos; lia).
    assert (Hle : max_text_length cfg * ((L - 1 - 0) / max_text_length cfg)
                  <= L - 1 - 0) by (apply Z.mul_div_le; lia).
    assert (Hgt : L - 1 - 0
                  < max_text_length cfg
                    * Z.succ ((L - 1 - 0) / max_text_length cfg))
      by (apply Z.mul_succ_div_gt; lia).
    rewrite Z2Nat.id by lia. split; [|intros _]; nia.
  - destruct (Z.ltb_spec (max_text_length cfg) 0); [lia|]. simpl. lia.
Qed.

Lemma node_text_splits_windows (cfg : Config) (s : str) :
  0 < max_text_length cfg ->
  node_text_splits cfg s
  = Ok (windows (window_count cfg (len s)) (Z.to_nat (max_text_length cfg)) s).
Proof.
  intros Hm. unfold node_text_splits, py_range.
  destruct (Z.eqb_spec (max_text_length cfg) 0); [lia|].
  simpl bind. f_equal. rewrite map_map, windows_map.
  apply map_ext; intros k.
  rewrite py_slice_window by lia. do 2 f_equal. nia.
Qed.

(** With a negative maximum the range of line 80 is empty; with a zero
    maximum it raises. *)
Lemma node_text_splits_nonpositive (cfg : Config) (s : str) :
  max_text_length cfg <= 0 ->
  node_text_splits cfg s
  = if max_text_length cfg =? 0 then Raise ValueError else Ok [].
Proof.
  intros Hm. unfold node_text_splits, py_range, range_len.
  destruct (Z.eqb_spec (max_text_length cfg) 0); [reflexivity|].
  destruct (Z.ltb_spec 0 (max_text_length cfg)); [lia|].
  destruct (Z.ltb_spec (len s) 0); [pose proof (len_nonneg s); lia|].
  rewrite andb_false_r. reflexivity.
Qed.

Lemma window_count_nat (cfg : Config) (s : str) :
  0 < max_text_length cfg ->
  let n := window_count cfg (len s) in
  let m := Z.to_nat (max_text_length cfg) in
  (0 < m /\ length s <= n * m /\ (0 < n -> (n - 1) * m < length s))%nat.
Proof.
  intros Hm n m.
  destruct (window_count_bounds cfg Hm (len_nonneg s)) as [Hcov Hlast].
  fold n in Hcov, Hlast. unfold len in Hcov, Hlast.
  assert (Hmz : Z.of_nat m = max_text_length cfg) by (unfold m; lia).
  rewrite <- Hmz in Hcov, Hlast. repeat split; nia.
Qed.

Lemma windows_bounded (n m : nat) (s : str) :
  (0 < m)%nat -> (0 < n -> (n - 1) * m < length s)%nat ->
  Forall (fun w => (0 < length w <= m)%nat) (windows n m s).
Proof.
  intros Hm Hlast. rewrite windows_map. apply Forall_map, Forall_forall.
  intros k Hk. apply in_seq in Hk.
  rewrite length_firstn, length_skipn. nia.
Qed.

Lemma windows_full (n m i : nat) (s : str) :
  (0 < n -> (n - 1) * m < length s)%nat -> (S i < n)%nat ->
  length (nth i (windows n m s) []) = m.
Proof.
  intros Hlast Hi. rewrite windows_nth by lia.
  rewrite length_firstn, length_skipn. nia.
Qed.

Lemma build_chunks_texts {ext : Collaborators} (cfg : Config) (l : Loc) :
  0 < max_text_length cfg ->
  exists chunks,
    _build_chunks cfg l = Ok chunks
    /\ map Chunk.text chunks
       = windows (window_count cfg (len (render cfg l)))
                 (Z.to_nat (max_text_length cfg)) (render cfg l).
Proof.
  intros Hm. unfold _build_chunks.
  rewrite node_text_splits_windows by exact Hm. simpl bind.
  eexists; split; [reflexivity|].
  rewrite map_map. simpl. apply map_id.
Qed.

Lemma build_chunks_concat {ext : Collaborators} (cfg : Config) (l : Loc) chunks :
  0 < max_text_length cfg ->
  _build_chunks cfg l = Ok chunks ->
  concat (map Chunk.text chunks) = render cfg l.
Proof.
  intros Hm Hb. destruct (build_chunks_texts cfg l Hm) as (cs & Hcs & Ht).
  rewrite Hb in Hcs; injection Hcs as <-.
  rewrite Ht, windows_concat. apply firstn_all2.
  apply (window_count_nat cfg (render cfg l) Hm).
Qed.

Lemma build_chunks_bounded {ext : Collaborators} (cfg : Config) (l : Loc) chunks :
  0 < max_text_length cfg ->
  _build_chunks cfg l = Ok chunks ->
  Forall (fun c => 0 < len (Chunk.text c) <= max_text_length cfg) chunks.
Proof.
  intros Hm Hb. destruct (build_chunks_texts cfg l Hm) as (cs & Hcs & Ht).
  rewrite Hb in Hcs; injection Hcs as <-.
  destruct (window_count_nat cfg (render cfg l) Hm) as (Hm' & _ & Hlast).
  pose proof (windows_bounded _ Hm' Hlast) as Hw.
  rewrite <- Ht in Hw. apply Forall_map in Hw.
  revert Hw. apply Forall_impl. intros c Hc. unfold len. lia.
Qed.

Lemma build_chunks_bounded_head {ext : Collaborators} (cfg : Config) (l : Loc)
  c rest :
  _build_chunks cfg l = Ok (c :: rest) -> 0 < max_text_length cfg.
Proof.
  intros Hb. destruct (Z_lt_le_dec 0 (max_text_length cfg)) as [Hm|Hm];
    [exact Hm|].
  unfold _build_chunks in Hb.
  rewrite node_text_splits_nonpositive in Hb by exact Hm.
  destruct (max_text_length cfg =? 0); discriminate Hb.
Qed.

Lemma build_chunks_first_slice {ext : Collaborators} (cfg : Config) (l : Loc)
  c rest :
  _build_chunks cfg l = Ok (c :: rest) ->
  Chunk.text c = py_slice (render cfg l) 0 (max_text_length cfg).
Proof.
  intros Hb. pose proof (build_chunks_bounded_head cfg l Hb) as Hm.
  destruct (build_chunks_texts cfg l Hm) as (cs & Hcs & Ht).
  rewrite Hb in Hcs; injection Hcs as <-.
  assert (Hn : (0 < window_count cfg (len (render cfg l)))%nat).
  { pose proof (windows_length (window_count cfg (len (render cfg l)))
                  (Z.to_nat (max_text_length cfg)) (render cfg l)) as Hlen.
    rewrite <- Ht in Hlen. cbn [map length] in Hlen. lia. }
  change (Chunk.text c) with (nth 0 (map Chunk.text (c :: rest)) []).
  rewrite Ht, windows_nth by exact Hn.
  change (py_slice (render cfg l) 0 (max_text_length cfg))
    with (py_slice (render cfg l) 0 (0 + max_text_length cfg)).
  rewrite py_slice_window by lia. reflexivity.
Qed.

Lemma build_chunks_full_windows {ext : Collaborators} (cfg : Config) (l : Loc)
  chunks i :
  0 < max_text_length cfg ->
  _build_chunks cfg l = Ok chunks ->
  (S i < length chunks)%nat ->
  len (nth i (map Chunk.text chunks) []) = max_text_length cfg.
Proof.
  intros Hm Hb Hi. destruct (build_chunks_texts cfg l Hm) as (cs & Hcs & Ht).
  rewrite Hb in Hcs; injection Hcs as <-.
  destruct (window_count_nat cfg (render cfg l) Hm) as (_ & _ & Hlast).
  assert (Hn : length chunks = window_count cfg (len (render cfg l)))
    by (rewrite <- (length_map Chunk.text), Ht; apply windows_length).
  rewrite Ht.
  pose proof (@windows_full _ _ i _ Hlast ltac:(lia)) as Hfull.
  unfold len at 1. rewrite Hfull. lia.
Qed.

Lemma build_chunks_empty_render {ext : Collaborators} (cfg : Config) (l : Loc) :
  0 < max_text_length cfg ->
  render cfg l = [] ->
  _build_chunks cfg l = Ok [].
Proof.
  intros Hm Hempty. destruct (build_chunks_texts cfg l Hm) as (cs & Hcs & Ht).
  rewrite Hcs. f_equal. apply (map_eq_nil Chunk.text). rewrite Ht, Hempty.
  unfold window_count, range_len. cbn [len length Z.of_nat].
  destruct (Z.ltb_spec 0 (max_text_length cfg)); [|lia].
  destruct (Z.ltb_spec (max_text_length cfg) 0); [lia|]. reflexivity.
Qed.

(** C6: [_build_chunks] cuts the rendered text of a node into windows,
    the [i]-th being the slice that starts at [i * max_text_length]:
    the windows concatenate to the rendered text, all but the last have
    exactly [max_text_length] characters, none is empty or longer than
    that, an empty text gives no chunk, and 250 characters with a maximum
    of 100 give chunks of 100, 100 and 50 characters. *)
Theorem build_chunks_windows {ext : Collaborators} (cfg : Config) (l : Loc) :
  0 < max_text_length cfg ->
  exists chunks,
    _build_chunks cfg l = Ok chunks
    /\ concat (map Chunk.text chunks) = render cfg l
    /\ (forall i, (i < length chunks)%nat ->
          nth i (map Chunk.text chunks) []
          = py_slice (render cfg l) (Z.of_nat i * max_text_length cfg)
                     (Z.of_nat i * max_text_length cfg + max_text_length cfg))
    /\ (forall i, (S i < length chunks)%nat ->
          len (nth i (map Chunk.text chunks) []) = max_text_length cfg)
    /\ Forall (fun c => 0 < len (Chunk.text c) <= max_text_length cfg) chunks
    /\ (len (render cfg l) = 0 -> chunks = [])
    /\ (max_text_length cfg = 100 -> len (render cfg l) = 250 ->
        map (fun c => len (Chunk.text c)) chunks = [100; 100; 50]).
Proof.
  intros Hm. destruct (build_chunks_texts cfg l Hm) as (chunks & Hb & Ht).
  destruct (window_count_nat cfg (render cfg l) Hm) as (Hm' & Hcov & Hlast).
  assert (Hn : length chunks = window_count cfg (len (render cfg l)))
    by (rewrite <- (length_map Chunk.text), Ht; apply windows_length).
  exists chunks. split; [exact Hb|]. split; [|split; [|split; [|split; [|split]]]].
  - eapply build_chunks_concat; eassumption.
  - intros i Hi. rewrite Ht, windows_nth by lia.
    rewrite py_slice_window by nia. do 2 f_equal.
    rewrite Z2Nat.inj_mul, Nat2Z.id by lia. reflexivity.
  - intros i Hi. rewrite Ht.
    pose proof (@windows_full _ _ i _ Hlast ltac:(lia)) as Hfull.
    unfold len at 1. rewrite Hfull. lia.
  - eapply build_chunks_bounded; eassumption.
  - intros H0. apply length_zero_iff_nil. rewrite Hn, H0.
    unfold window_count, range_len.
    destruct (Z.ltb_spec 0 (max_text_length cfg)); [|lia].
    destruct (Z.ltb_spec (max_text_length cfg) 0); [lia|]. reflexivity.
  - intros H100 H250.
    rewrite <- (map_map Chunk.text (fun w => len w)), Ht.
    unfold window_count. rewrite H250, H100.
    change (Z.to_nat (range_len 0 250 100)) with 3%nat.
    change (Z.to_nat 100) with 100%nat.
    assert (Hl : length (render cfg l) = 250%nat) by (unfold len in H250; lia).
    unfold windows, len; cbn [map].
    rewrite !length_firstn, !length_skipn, Hl. reflexivity.
Qed.

Lemma build_chunks_windows_witness :
  exists chunks,
    _build_chunks (ext := plain) (text_cfg 8 100) ([], long_leaf) = Ok chunks
    /\ map (fun c => len (Chunk.text c)) chunks = [100; 100; 50].
Proof.
  destruct (build_chunks_windows (ext := plain) (text_cfg 8 100) ([], long_leaf))
    as (chunks & Hb & _ & _ & _ & _ & _ & Hex); [reflexivity|].
  exists chunks. split; [exact Hb|]. apply Hex; reflexivity.
Defined.

(** With a negative maximum the range of line 80 is empty and the text
    of the node is not covered; with a zero maximum even an empty text
    raises instead of giving no chunk. *)
Lemma build_chunks_nonpositive_maximum :
  render (ext := plain) (text_cfg 8 (-1)) ([], marked "p" "p" "abc") = lit "abc"
  /\ _build_chunks (ext := plain) (text_cfg 8 (-1)) ([], marked "p" "p" "abc")
     = Ok []
  /\ ~ (exists chunks,
          _build_chunks (ext := plain) (text_cfg 8 (-1)) ([], marked "p" "p" "abc")
          = Ok chunks
          /\ concat (map Chunk.text chunks)
             = render (ext := plain) (text_cfg 8 (-1)) ([], marked "p" "p" "abc"))
  /\ render (ext := plain) (text_cfg 8 0) ([], elem "p" []) = []
  /\ _build_chunks (ext := plain) (text_cfg 8 0) ([], elem "p" [])
     = Raise ValueError.
Proof.
  split; [reflexivity|]. split; [reflexivity|]. split; [|split; reflexivity].
  intros (chunks & Hb & Hc). injection Hb as <-. discriminate Hc.
Qed.

(** ** Classification of a node *)

Lemma is_structural_iff (node : Node) :
  is_structural node = true <-> carries_marker node.
Proof.
  unfold is_structural, carries_marker.
  destruct (structure_attr node); split; congruence.
Qed.

Lemma is_descendant_of_structural_iff (ancs : list Node) :
  is_descendant_of_structural ancs = true <-> marked_ancestor ancs.
Proof.
  unfold is_descendant_of_structural, marked_ancestor.
  rewrite existsb_exists. split; intros (a & Ha & Hm); exists a; split; trivial;
    now apply is_structural_iff.
Qed.

Lemma has_structural_children_iff (node : Node) :
  has_structural_children node = true <-> marked_descendant node.
Proof.
  induction node as [t s x cs IH] using Node_forall_ind.
  unfold marked_descendant. cbn [has_structural_children descendants].
  rewrite existsb_exists. rewrite Forall_forall in IH. split.
  - intros (c & Hc & Hor). apply orb_true_iff in Hor as [Hs|Hd].
    + exists c. split; [|now apply is_structural_iff].
      apply in_flat_map. exists c. split; [exact Hc | now left].
    + apply (IH c Hc) in Hd as (d & Hd & Hm). exists d. split; [|exact Hm].
      apply in_flat_map. exists c. split; [exact Hc | now right].
  - intros (d & Hd & Hm). apply in_flat_map in Hd as (c & Hc & [<-|Hd]).
    + exists c. split; [exact Hc|]. apply orb_true_iff. left.
      now apply is_structural_iff.
    + exists c. split; [exact Hc|]. apply orb_true_iff. right.
      apply (IH c Hc). now exists d.
Qed.

Lemma has_structural_children_false_iff (node : Node) :
  has_structural_children node = false <-> ~ marked_descendant node.
Proof.
  rewrite <- has_structural_children_iff.
  destruct (has_structural_children node); split; congruence.
Qed.

Lemma is_leaf_spec (cfg : Config) (ancs : list Node) (node : Node) :
  is_leaf cfg ancs node = true <-> spec_leaf (sub_chunk_tables cfg) ancs node.
Proof.
  unfold is_leaf, spec_leaf, is_table_leaf_node, is_text_leaf_node,
    is_structure_orphaned_node, table_typed.
  rewrite !orb_true_iff, !andb_true_iff, !negb_true_iff.
  rewrite String.eqb_eq, is_structural_iff, is_descendant_of_structural_iff,
    has_structural_children_false_iff.
  tauto.
Qed.

Lemma traverse_unfold {ext : Collaborators} (cfg : Config) ancs node st :
  _traverse cfg ancs node st
  = if is_leaf cfg ancs node then emit_leaf cfg (ancs, node) st
    else traverse_children cfg ancs node st.
Proof.
  destruct node as [t s x cs]. cbn [_traverse].
  destruct (is_leaf cfg ancs (mkNode t s x cs)); [reflexivity|].
  unfold traverse_children. cbn [children].
  generalize (mkNode t s x cs) as node. intros node.
  revert st; induction cs as [|c cs IH]; intros st; [reflexivity|].
  cbn [foldM]. destruct (_traverse cfg (node :: ancs) c st); simpl; auto.
Qed.

Lemma is_structural_map_text f node :
  is_structural (map_text f node) = is_structural node.
Proof. now destruct node. Qed.

Lemma has_structural_children_map_text f node :
  has_structural_children (map_text f node) = has_structural_children node.
Proof.
  induction node as [t s x cs IH] using Node_forall_ind.
  cbn [map_text has_structural_children].
  induction IH as [|c cs Hc _ IHcs]; [reflexivity|].
  cbn [map existsb]. now rewrite is_structural_map_text, Hc, IHcs.
Qed.

(** C4: a node is treated as a leaf exactly when one of the three
    conditions of the leaf rule holds; the traversal emits the chunks of
    a leaf and otherwise runs over the children in document order,
    emitting nothing for the node itself; the classification reads
    neither a length bound nor any text content. *)
Theorem leaf_classification {ext : Collaborators} (cfg : Config)
  (ancs : list Node) (node : Node) (st : State) :
  (is_leaf cfg ancs node = true <-> spec_leaf (sub_chunk_tables cfg) ancs node)
  /\ _traverse cfg ancs node st
     = (if is_leaf cfg ancs node then emit_leaf cfg (ancs, node) st
        else traverse_children cfg ancs node st)
  /\ (forall lo hi ws xm lv f,
        is_leaf (Build_Config lo hi ws (sub_chunk_tables cfg) xm lv)
                (map (map_text f) ancs) (map_text f node)
        = is_leaf cfg ancs node).
Proof.
  split; [apply is_leaf_spec|]. split; [apply traverse_unfold|].
  intros lo hi ws xm lv f.
  unfold is_leaf, is_table_leaf_node, is_text_leaf_node,
    is_structure_orphaned_node, is_descendant_of_structural.
  cbn [sub_chunk_tables].
  rewrite is_structural_map_text, has_structural_children_map_text.
  replace (tag (map_text f node)) with (tag node) by now destruct node.
  replace (existsb is_structural (map (map_text f) ancs))
    with (existsb is_structural ancs); [reflexivity|].
  induction ancs as [|a ancs IH]; [reflexivity|].
  cbn [map existsb]. now rewrite is_structural_map_text, IH.
Qed.

Lemma leaf_classification_witness :
  spec_leaf false [doc_lim] lim_item
  /\ _traverse (ext := plain) (text_cfg 8 10) [] doc_lim init
     = traverse_children (ext := plain) (text_cfg 8 10) [] doc_lim init.
Proof.
  split.
  - apply (leaf_classification (ext := plain) (text_cfg 8 10) [doc_lim]
             lim_item init). reflexivity.
  - apply (leaf_classification (ext := plain) (text_cfg 8 10) [] doc_lim init).
Defined.

(** ** The traversal as a run over the leaves *)

Lemma bind_Ok_r {A} (r : result A) : bind r Ok = r.
Proof. now destruct r. Qed.

Lemma foldM_app {A S} (f : S -> A -> result S) (l1 l2 : list A) (s : S) :
  foldM f (l1 ++ l2) s = bind (foldM f l1 s) (foldM f l2).
Proof.
  revert s; induction l1 as [|x l1 IH]; intros s; [reflexivity|].
  cbn [app foldM]. destruct (f s x); simpl; auto.
Qed.

Lemma traverse_leaves {ext : Collaborators} (cfg : Config) node :
  forall ancs st,
    _traverse cfg ancs node st = run_leaves cfg (leaves cfg ancs node) st.
Proof.
  induction node as [t s x cs IH] using Node_forall_ind. intros ancs st.
  rewrite traverse_unfold. cbn [leaves].
  destruct (is_leaf cfg ancs (mkNode t s x cs)).
  - unfold run_leaves. cbn [foldM]. now rewrite bind_Ok_r.
  - unfold traverse_children, run_leaves. cbn [children].
    generalize (mkNode t s x cs :: ancs) as up. intros up. revert st.
    induction IH as [|c cs Hc _ IHcs]; intros st; [reflexivity|].
    cbn [foldM flat_map]. rewrite foldM_app, Hc. unfold run_leaves.
    destruct (foldM _ (leaves cfg up c) st); simpl; auto.
Qed.

Lemma get_chunks_run {ext : Collaborators} (cfg : Config) ancs node out :
  get_chunks cfg ancs node = Ok out ->
  exists st,
    run_leaves cfg (leaves cfg ancs node) init = Ok st /\ out = flush st.
Proof.
  unfold get_chunks. rewrite traverse_leaves. intros H.
  apply bind_Ok_inv in H as (st & Hst & Hout). exists st. split; congruence.
Qed.

Lemma flush_pending (st : State) : flush st = final_chunks st ++ pending st.
Proof.
  unfold flush, pending. destruct (prepended_small_chunk st); trivial.
  now rewrite app_nil_r.
Qed.

Lemma run_leaves_app_inv {ext : Collaborators} (cfg : Config) l1 l2 st st' :
  run_leaves cfg (l1 ++ l2) st = Ok st' ->
  exists mid, run_leaves cfg l1 st = Ok mid /\ run_leaves cfg l2 mid = Ok st'.
Proof.
  unfold run_leaves. rewrite foldM_app. apply bind_Ok_inv.
Qed.

Lemma run_leaves_cons_inv {ext : Collaborators} (cfg : Config) l ls st st' :
  run_leaves cfg (l :: ls) st = Ok st' ->
  exists chunks,
    provisional cfg l = Ok chunks
    /\ run_leaves cfg ls
         (fold_left (merge_step cfg (is_force_prepend_chunk (snd l))) chunks st)
       = Ok st'.
Proof.
  unfold run_leaves. cbn [foldM]. intros H.
  apply bind_Ok_inv in H as (mid & Hmid & Hrest).
  unfold emit_leaf in Hmid. apply bind_Ok_inv in Hmid as (chunks & Hp & Hf).
  exists chunks. split; [exact Hp|]. injection Hf as <-. exact Hrest.
Qed.

Lemma provisional_inv {ext : Collaborators} (cfg : Config) l chunks :
  provisional cfg l = Ok chunks ->
  exists subs ac,
    _build_chunks cfg l = Ok subs /\ ancestor_chunk cfg l = Ok ac
    /\ chunks = map (Chunk.set_parent ac) subs.
Proof.
  unfold provisional. intros H.
  apply bind_Ok_inv in H as (subs & Hs & H).
  apply bind_Ok_inv in H as (ac & Ha & H). injection H as <-. eauto.
Qed.

Lemma set_parent_texts ac (subs : list Chunk) :
  map Chunk.text (map (Chunk.set_parent ac) subs) = map Chunk.text subs.
Proof. rewrite map_map. now apply map_ext. Qed.

(** A successful [_build_chunks] returned non-empty windows no longer
    than the maximum, whatever the sign of the maximum. *)
Lemma build_chunks_Ok_bounded {ext : Collaborators} (cfg : Config) l subs :
  _build_chunks cfg l = Ok subs ->
  Forall (fun c => 0 < len (Chunk.text c) <= max_text_length cfg) subs.
Proof.
  intros Hb. destruct (Z_lt_le_dec 0 (max_text_length cfg)) as [Hm|Hm].
  - eapply build_chunks_bounded; eassumption.
  - unfold _build_chunks in Hb.
    rewrite node_text_splits_nonpositive in Hb by exact Hm.
    destruct (max_text_length cfg =? 0); [discriminate|].
    injection Hb as <-. constructor.
Qed.

Lemma provisional_bounded {ext : Collaborators} (cfg : Config) l chunks :
  provisional cfg l = Ok chunks ->
  Forall (fun c => 0 < len (Chunk.text c) <= max_text_length cfg) chunks.
Proof.
  intros H. apply provisional_inv in H as (subs & ac & Hs & _ & ->).
  apply Forall_map. apply build_chunks_Ok_bounded in Hs.
  revert Hs. apply Forall_impl. now intros [].
Qed.

(** ** No text is lost by the merger *)

Lemma merge_step_text (cfg : Config) force st c :
  held_text (merge_step cfg force st c) = held_text st ++ Chunk.text c.
Proof.
  unfold merge_step, held_text, pending_text, pending.
  destruct (prepended_small_chunk st) as [p|];
    case_if;
    cbn [final_chunks prepended_small_chunk Chunk.add Chunk.text map concat];
    rewrite ?map_app, ?concat_app; cbn [map concat];
    rewrite ?app_nil_r, <- ?app_assoc; reflexivity.
Qed.

Lemma merge_fold_text (cfg : Config) force chunks st :
  held_text (fold_left (merge_step cfg force) chunks st)
  = held_text st ++ concat (map Chunk.text chunks).
Proof.
  revert st; induction chunks as [|c chunks IH]; intros st; cbn [fold_left].
  - now rewrite app_nil_r.
  - rewrite IH, merge_step_text. cbn [map concat]. now rewrite app_assoc.
Qed.

Lemma run_leaves_text {ext : Collaborators} (cfg : Config) ls :
  0 < max_text_length cfg ->
  forall st st',
    run_leaves cfg ls st = Ok st' ->
    held_text st' = held_text st ++ concat (map (render cfg) ls).
Proof.
  intros Hm. induction ls as [|l ls IH]; intros st st' Hrun.
  - injection Hrun as <-. now rewrite app_nil_r.
  - apply run_leaves_cons_inv in Hrun as (chunks & Hp & Hrun).
    rewrite (IH _ _ Hrun), merge_fold_text.
    apply provisional_inv in Hp as (subs & ac & Hs & _ & ->).
    rewrite set_parent_texts, (build_chunks_concat _ _ Hm Hs).
    cbn [map concat]. now rewrite app_assoc.
Qed.

Lemma flush_text (st : State) :
  concat (map Chunk.text (flush st)) = held_text st.
Proof.
  rewrite flush_pending, map_app, concat_app. reflexivity.
Qed.

(** Outside hierarchy mode a positive maximum is all [get_chunks] needs
    to return. *)
Lemma emit_leaf_returns {ext : Collaborators} (cfg : Config) l st :
  0 < max_text_length cfg ->
  xml_mode cfg && (0 <? parent_hierarchy_levels cfg) = false ->
  exists st', emit_leaf cfg l st = Ok st'.
Proof.
  intros Hm Hflat. unfold emit_leaf, provisional, ancestor_chunk.
  rewrite Hflat. destruct (build_chunks_texts cfg l Hm) as (subs & -> & _).
  simpl bind. eauto.
Qed.

Lemma run_leaves_returns {ext : Collaborators} (cfg : Config) ls :
  0 < max_text_length cfg ->
  xml_mode cfg && (0 <? parent_hierarchy_levels cfg) = false ->
  forall st, exists st', run_leaves cfg ls st = Ok st'.
Proof.
  intros Hm Hflat. induction ls as [|l ls IH]; intros st.
  - now exists st.
  - unfold run_leaves. cbn [foldM].
    destruct (emit_leaf_returns cfg l st Hm Hflat) as (mid & ->).
    simpl bind. apply IH.
Qed.

(** C2 (as amended): when the maximum is positive, the texts of the
    returned chunks, concatenated in order, are the rendered texts of the
    leaf-classified nodes concatenated in document order; outside
    hierarchy mode [get_chunks] does return for such a maximum. *)
Theorem no_text_lost {ext : Collaborators} (cfg : Config) ancs node :
  0 < max_text_length cfg ->
  (forall out,
     get_chunks cfg ancs node = Ok out ->
     concat (map Chunk.text out)
     = concat (map (render cfg) (leaves cfg ancs node)))
  /\ (xml_mode cfg && (0 <? parent_hierarchy_levels cfg) = false ->
      exists out, get_chunks cfg ancs node = Ok out).
Proof.
  intros Hm. split.
  - intros out Hout. apply get_chunks_run in Hout as (st & Hrun & ->).
    rewrite flush_text.
    eapply eq_trans; [eapply run_leaves_text; eassumption | reflexivity].
  - intros Hflat. unfold get_chunks. rewrite traverse_leaves.
    destruct (run_leaves_returns cfg (leaves cfg ancs node) Hm Hflat init)
      as (st & ->).
    simpl. eauto.
Qed.

Lemma no_text_lost_witness :
  texts (get_chunks (ext := plain) (text_cfg 8 10) [] doc_lim)
  = Ok ["ab1.0123456789"%string]
  /\ concat (map (render (ext := plain) (text_cfg 8 10))
                 (leaves (text_cfg 8 10) [] doc_lim))
     = lit "ab1.0123456789".
Proof.
  split; [reflexivity|].
  destruct (no_text_lost (ext := plain) (text_cfg 8 10) [] doc_lim) as [H _];
    [reflexivity|].
  rewrite <- (H _ eq_refl). reflexivity.
Defined.

(** With a negative maximum the range of line 80 is empty, so every leaf
    yields no chunk and its text is lost. *)
Lemma no_text_lost_fails_for_negative_maximum :
  get_chunks (ext := plain) (text_cfg 8 (-1)) [] doc_small_then_full = Ok []
  /\ concat (map (render (ext := plain) (text_cfg 8 (-1)))
                 (leaves (text_cfg 8 (-1)) [] doc_small_then_full))
     = lit "abcde0123456789"
  /\ ~ (forall out,
          get_chunks (ext := plain) (text_cfg 8 (-1)) [] doc_small_then_full
          = Ok out ->
          concat (map Chunk.text out)
          = concat (map (render (ext := plain) (text_cfg 8 (-1)))
                        (leaves (text_cfg 8 (-1)) [] doc_small_then_full))).
Proof.
  split; [reflexivity|]. split; [reflexivity|].
  intros H. specialize (H [] eq_refl). discriminate H.
Qed.

(** ** The minimum length *)

Lemma merge_step_min (cfg : Config) force st c :
  Forall (fun q => min_text_length cfg <= len (Chunk.text q)) (final_chunks st) ->
  Forall (fun q => min_text_length cfg <= len (Chunk.text q))
         (final_chunks (merge_step cfg force st c)).
Proof.
  intros H. unfold merge_step.
  case_if_eq Hb;
    cbn [final_chunks]; [exact H|].
  apply orb_false_iff in Hb as [Hb _]. apply Z.ltb_ge in Hb.
  apply Forall_app. split; [exact H|]. now constructor.
Qed.

Lemma merge_fold_min (cfg : Config) force chunks st :
  Forall (fun q => min_text_length cfg <= len (Chunk.text q)) (final_chunks st) ->
  Forall (fun q => min_text_length cfg <= len (Chunk.text q))
         (final_chunks (fold_left (merge_step cfg force) chunks st)).
Proof.
  revert st; induction chunks as [|c chunks IH]; intros st H; [exact H|].
  cbn [fold_left]. now apply IH, merge_step_min.
Qed.

Lemma run_leaves_min {ext : Collaborators} (cfg : Config) ls st st' :
  run_leaves cfg ls st = Ok st' ->
  Forall (fun q => min_text_length cfg <= len (Chunk.text q)) (final_chunks st) ->
  Forall (fun q => min_text_length cfg <= len (Chunk.text q)) (final_chunks st').
Proof.
  revert st; induction ls as [|l ls IH]; intros st Hrun H.
  - now injection Hrun as <-.
  - apply run_leaves_cons_inv in Hrun as (chunks & _ & Hrun).
    eapply IH; [exact Hrun|]. now apply merge_fold_min.
Qed.

(** C3: the returned list is the chunks emitted during the traversal
    followed by the pending buffer when one is left; every chunk emitted
    during the traversal has at least [min_text_length] characters, so
    only the flushed buffer, at the very end, can be shorter. *)
Theorem min_length_except_flush {ext : Collaborators} (cfg : Config) ancs node out :
  get_chunks cfg ancs node = Ok out ->
  exists st,
    _traverse cfg ancs node init = Ok st
    /\ out = final_chunks st ++ pending st
    /\ (length (pending st) <= 1)%nat
    /\ Forall (fun q => min_text_length cfg <= len (Chunk.text q))
              (final_chunks st)
    /\ Forall (fun q => min_text_length cfg <= len (Chunk.text q))
              (removelast out).
Proof.
  intros Hout. pose proof Hout as Hrun.
  apply get_chunks_run in Hrun as (st & Hrun & ->).
  assert (Hmin : Forall (fun q => min_text_length cfg <= len (Chunk.text q))
                        (final_chunks st))
    by (eapply run_leaves_min; [exact Hrun | constructor]).
  exists st. rewrite traverse_leaves, flush_pending.
  split; [exact Hrun|]. split; [reflexivity|].
  unfold pending. destruct (prepended_small_chunk st) as [p|].
  - split; [simpl; lia|]. split; [exact Hmin|]. now rewrite removelast_last.
  - split; [simpl; lia|]. split; [exact Hmin|]. rewrite app_nil_r.
    clear -Hmin. induction Hmin as [|q [|q' l] Hq Hl IH]; cbn [removelast];
      constructor; auto.
Qed.

Lemma min_length_except_flush_witness :
  exists st,
    _traverse (ext := plain) (text_cfg 8 3) [] doc_lim init = Ok st
    /\ map (fun q => len (Chunk.text q)) (final_chunks st) = [10]
    /\ map (fun q => len (Chunk.text q)) (pending st) = [4].
Proof.
  destruct (@min_length_except_flush plain (text_cfg 8 3) [] doc_lim _ eq_refl)
    as (st & Hst & _).
  exists st. split; [exact Hst|].
  injection Hst as <-. split; reflexivity.
Defined.

(** ** The maximum length *)

Lemma merge_step_bound (cfg : Config) st c :
  0 < len (Chunk.text c) <= max_text_length cfg ->
  within_bound cfg st -> within_bound cfg (merge_step cfg false st c).
Proof.
  intros Hc [Hfin Hpend]. unfold within_bound, merge_step, pending in *.
  unfold merged_bound in *. rewrite orb_false_r.
  destruct (prepended_small_chunk st) as [p|].
  - apply Forall_inv in Hpend as [Hp _].
    case_if_eq Hb;
      cbn [final_chunks prepended_small_chunk Chunk.add Chunk.text] in *.
    + apply Z.ltb_lt in Hb. split; [exact Hfin|]. constructor; [|constructor].
      cbn [Chunk.text Chunk.add]. lia.
    + apply Z.ltb_ge in Hb. split; [|constructor].
      apply Forall_app. split; [exact Hfin|].
      constructor; [|constructor]. cbn [Chunk.text Chunk.add].
      rewrite len_app. lia.
  - case_if_eq Hb;
      cbn [final_chunks prepended_small_chunk].
    + apply Z.ltb_lt in Hb. split; [exact Hfin|]. constructor; [|constructor]. lia.
    + split; [|constructor]. apply Forall_app. split; [exact Hfin|].
      constructor; [|constructor]. lia.
Qed.

Lemma merge_fold_bound (cfg : Config) chunks st :
  Forall (fun c => 0 < len (Chunk.text c) <= max_text_length cfg) chunks ->
  within_bound cfg st ->
  within_bound cfg (fold_left (merge_step cfg false) chunks st).
Proof.
  intros Hcs; revert st; induction Hcs as [|c chunks Hc _ IH]; intros st Hst;
    [exact Hst|].
  cbn [fold_left]. now apply IH, merge_step_bound.
Qed.

Lemma run_leaves_bound {ext : Collaborators} (cfg : Config) ls :
  force_free ls ->
  forall st st',
    run_leaves cfg ls st = Ok st' -> within_bound cfg st -> within_bound cfg st'.
Proof.
  intros Hfree; induction Hfree as [|l ls Hl _ IH]; intros st st' Hrun Hst.
  - now injection Hrun as <-.
  - apply run_leaves_cons_inv in Hrun as (chunks & Hp & Hrun).
    rewrite Hl in Hrun. eapply IH; [exact Hrun|].
    apply merge_fold_bound; [|exact Hst].
    eapply provisional_bounded; exact Hp.
Qed.

(** C1 (as amended): every chunk [_build_chunks] returns has at most
    [max_text_length] characters; a returned chunk is such a chunk
    possibly preceded by the text of the pending buffer, so when no leaf
    is force-merge it has at most
    [max_text_length + max 0 (min_text_length - 1)] characters. *)
Theorem max_length_bound {ext : Collaborators} (cfg : Config) ancs node :
  (forall l subs,
     _build_chunks cfg l = Ok subs ->
     Forall (fun c => len (Chunk.text c) <= max_text_length cfg) subs)
  /\ (forall out,
        force_free (leaves cfg ancs node) ->
        get_chunks cfg ancs node = Ok out ->
        Forall (fun q => len (Chunk.text q) <= merged_bound cfg) out).
Proof.
  split.
  - intros l subs Hs. apply build_chunks_Ok_bounded in Hs.
    revert Hs. apply Forall_impl. intros c Hc. lia.
  - intros out Hfree Hout. apply get_chunks_run in Hout as (st & Hrun & ->).
    assert (Hb : within_bound cfg st).
    { eapply run_leaves_bound; [exact Hfree | exact Hrun |].
      split; constructor. }
    destruct Hb as [Hfin Hpend]. rewrite flush_pending.
    apply Forall_app. split; [exact Hfin|].
    revert Hpend. apply Forall_impl. now intros p [_ Hp].
Qed.

Lemma max_length_bound_witness :
  exists out,
    get_chunks (ext := plain) (text_cfg 8 10) [] doc_small_then_full = Ok out
    /\ Forall (fun q => len (Chunk.text q) <= 17) out.
Proof.
  eexists. split; [reflexivity|].
  apply (proj2 (max_length_bound (ext := plain) (text_cfg 8 10) []
                  doc_small_then_full));
    [repeat constructor | reflexivity].
Defined.

(** A short chunk held back and prepended to a window of full length
    gives a returned chunk longer than the maximum. *)
Lemma max_length_exceeded_by_merge :
  texts (get_chunks (ext := plain) (text_cfg 8 10) [] doc_small_then_full)
  = Ok ["abcde0123456789"%string]
  /\ ~ (forall out,
          get_chunks (ext := plain) (text_cfg 8 10) [] doc_small_then_full
          = Ok out ->
          Forall (fun q => len (Chunk.text q)
                           <= max_text_length (text_cfg 8 10)) out).
Proof.
  split; [reflexivity|]. intros H.
  specialize (H _ eq_refl). apply Forall_inv in H. vm_compute in H.
  now apply H.
Qed.

(** ** Force-merge leaves *)

Lemma merge_step_forced (cfg : Config) st c :
  final_chunks (merge_step cfg true st c) = final_chunks st
  /\ exists b,
       prepended_small_chunk (merge_step cfg true st c) = Some b
       /\ Chunk.text b = pending_text st ++ Chunk.text c.
Proof.
  unfold merge_step, pending_text, pending. rewrite orb_true_r.
  cbn [final_chunks prepended_small_chunk]. split; [reflexivity|].
  eexists. split; [reflexivity|].
  destruct (prepended_small_chunk st); cbn [Chunk.add Chunk.text map concat];
    now rewrite ?app_nil_r.
Qed.

Lemma merge_step_carried (cfg : Config) force p fin st c :
  0 < len (Chunk.text c) ->
  carried p fin st -> carried p fin (merge_step cfg force st c).
Proof.
  intros Hc [(Hfin & q & Hq & suffix & Hpre)|(q & rest & suffix & Hfin & Hq & Hne)];
    unfold merge_step.
  - rewrite Hq.
    case_if.
    + left. cbn [final_chunks prepended_small_chunk]. split; [exact Hfin|].
      eexists. split; [reflexivity|]. exists (suffix ++ Chunk.text c).
      cbn [Chunk.add Chunk.text]. now rewrite Hpre, app_assoc.
    + right. exists (Chunk.add q c), [], (suffix ++ Chunk.text c).
      cbn [final_chunks Chunk.add Chunk.text]. rewrite Hfin, Hpre, app_assoc.
      repeat split. intros Hnil. apply app_eq_nil in Hnil as [_ Hnil].
      rewrite Hnil in Hc. unfold len in Hc. simpl in Hc. lia.
  - right.
    case_if;
      cbn [final_chunks].
    + now exists q, rest, suffix.
    + eexists q, (rest ++ [_]), suffix. rewrite Hfin, <- app_assoc.
      now repeat split.
Qed.

Lemma merge_fold_carried (cfg : Config) force p fin chunks st :
  Forall (fun c => 0 < len (Chunk.text c)) chunks ->
  carried p fin st -> carried p fin (fold_left (merge_step cfg force) chunks st).
Proof.
  intros Hcs; revert st; induction Hcs as [|c chunks Hc _ IH]; intros st Hst;
    [exact Hst|].
  cbn [fold_left]. now apply IH, merge_step_carried.
Qed.

Lemma provisional_nonempty {ext : Collaborators} (cfg : Config) l chunks :
  provisional cfg l = Ok chunks ->
  Forall (fun c => 0 < len (Chunk.text c)) chunks.
Proof.
  intros H. apply provisional_bounded in H. revert H.
  apply Forall_impl. intros c Hc. lia.
Qed.

Lemma run_leaves_carried {ext : Collaborators} (cfg : Config) p fin ls :
  forall st st',
    run_leaves cfg ls st = Ok st' -> carried p fin st -> carried p fin st'.
Proof.
  induction ls as [|l ls IH]; intros st st' Hrun Hst.
  - now injection Hrun as <-.
  - apply run_leaves_cons_inv in Hrun as (chunks & Hp & Hrun).
    eapply IH; [exact Hrun|]. apply merge_fold_carried; [|exact Hst].
    eapply provisional_nonempty; exact Hp.
Qed.

Lemma carried_flush p fin st :
  carried p fin st ->
  exists q rest suffix,
    flush st = fin ++ q :: rest
    /\ Chunk.text q = p ++ suffix /\ (suffix <> [] \/ rest = []).
Proof.
  rewrite flush_pending. unfold pending.
  intros [(Hfin & q & Hq & suffix & Hpre)|(q & rest & suffix & Hfin & Hq & Hne)].
  - rewrite Hq, Hfin. exists q, [], suffix. auto.
  - rewrite Hfin, <- app_assoc. cbn [app]. eexists q, _, suffix. auto.
Qed.

(** C5 (as amended): a chunk of a force-merge leaf is never appended to
    the output when it is processed, whatever its length; it is put in
    the pending buffer behind the text already pending, and the buffer
    text so obtained is the front of a strictly longer chunk returned
    later, or of the last returned chunk. *)
Theorem force_merge_carried {ext : Collaborators} (cfg : Config) ancs node
  pre l post stA subs1 c subs2 out :
  leaves cfg ancs node = pre ++ l :: post ->
  is_force_prepend_chunk (snd l) = true ->
  run_leaves cfg pre init = Ok stA ->
  provisional cfg l = Ok (subs1 ++ c :: subs2) ->
  get_chunks cfg ancs node = Ok out ->
  let stB := fold_left (merge_step cfg true) subs1 stA in
  final_chunks (merge_step cfg true stB c) = final_chunks stB
  /\ exists b,
       prepended_small_chunk (merge_step cfg true stB c) = Some b
       /\ Chunk.text b = pending_text stB ++ Chunk.text c
       /\ exists q rest suffix,
            out = final_chunks stB ++ q :: rest
            /\ Chunk.text q = Chunk.text b ++ suffix
            /\ (suffix <> [] \/ rest = []).
Proof.
  intros Hls Hforce Hpre Hprov Hout stB.
  destruct (merge_step_forced cfg stB c) as (Hfin & b & Hb & Htext).
  split; [exact Hfin|]. exists b. split; [exact Hb|]. split; [exact Htext|].
  apply get_chunks_run in Hout as (st & Hrun & ->). rewrite Hls in Hrun.
  apply run_leaves_app_inv in Hrun as (mid & Hmid & Hrun).
  rewrite Hpre in Hmid; injection Hmid as <-.
  apply run_leaves_cons_inv in Hrun as (chunks & Hp & Hrun).
  rewrite Hprov in Hp; injection Hp as <-.
  rewrite Hforce, fold_left_app in Hrun. cbn [fold_left] in Hrun. fold stB in Hrun.
  apply provisional_nonempty in Hprov.
  apply Forall_app in Hprov as [_ Hprov]. apply Forall_inv_tail in Hprov.
  apply carried_flush. eapply run_leaves_carried; [exact Hrun|].
  apply merge_fold_carried; [exact Hprov|].
  left. split; [exact Hfin|]. exists b. split; [exact Hb|].
  exists []. now rewrite app_nil_r.
Qed.

Lemma force_merge_carried_witness :
  exists q rest suffix,
    get_chunks (ext := plain) (text_cfg 8 10) [] doc_lim = Ok (q :: rest)
    /\ Chunk.text q = lit "ab1." ++ suffix
    /\ (suffix <> [] \/ rest = []).
Proof.
  destruct (@force_merge_carried plain (text_cfg 8 10) [] doc_lim
              [([doc_lim], marked "p" "p" "ab")] ([doc_lim], lim_item)
              [([doc_lim], marked "p" "p" "0123456789")]
              _ [] _ [] _ eq_refl eq_refl eq_refl eq_refl eq_refl)
    as (_ & b & Hb & Htext & q & rest & suffix & Hout & Hq & Hs).
  exists q, rest, suffix. split; [|split; [|exact Hs]].
  - simpl in Hout. rewrite <- Hout. reflexivity.
  - rewrite Hq, Htext. reflexivity.
Defined.

(** Behind a pending short chunk, the text of a force-merge chunk lies in
    the middle of the returned chunk, not at its front, and no buffer is
    flushed at the end. *)
Lemma force_merge_text_not_prefix :
  exists c q,
    is_force_prepend_chunk lim_item = true
    /\ provisional (ext := plain) (text_cfg 8 10) ([doc_lim], lim_item) = Ok [c]
    /\ _traverse (ext := plain) (text_cfg 8 10) [] doc_lim init
       = Ok (Build_State [q] None)
    /\ get_chunks (ext := plain) (text_cfg 8 10) [] doc_lim = Ok [q]
    /\ ~ is_prefix (Chunk.text c) (Chunk.text q).
Proof.
  do 2 eexists. repeat (split; [reflexivity|]).
  intros [suffix H]. vm_compute in H. discriminate H.
Qed.

(** ** The context chunk *)

Lemma nth_ancestor_clipped (n : nat) :
  forall ancs node,
    nth_ancestor n ancs node
    = (skipn (Nat.min n (length ancs)) ancs,
       nth (Nat.min n (length ancs)) (node :: ancs) node).
Proof.
  induction n as [|n IH]; intros [|p ancs] node; try reflexivity.
  cbn [nth_ancestor length Nat.min skipn]. rewrite IH. f_equal.
  change (nth (S (Nat.min n (length ancs))) (node :: p :: ancs) node)
    with (nth (Nat.min n (length ancs)) (p :: ancs) node).
  apply nth_indep. cbn [length]. lia.
Qed.

Lemma build_chunks_parent {ext : Collaborators} (cfg : Config) l cs :
  _build_chunks cfg l = Ok cs -> Forall (fun c => Chunk.parent c = None) cs.
Proof.
  unfold _build_chunks. intros H. apply bind_Ok_inv in H as (ws & _ & H).
  injection H as <-. apply Forall_map, Forall_forall. reflexivity.
Qed.

Lemma ancestor_chunk_hierarchy {ext : Collaborators} (cfg : Config) l r :
  xml_mode cfg = true -> 0 < parent_hierarchy_levels cfg ->
  ancestor_chunk cfg l = Ok r ->
  exists ac rest,
    r = Some ac
    /\ _build_chunks cfg (xml_nth_ancestor l (parent_hierarchy_levels cfg))
       = Ok (ac :: rest).
Proof.
  intros Hx Hl. unfold ancestor_chunk. rewrite Hx.
  destruct (Z.ltb_spec 0 (parent_hierarchy_levels cfg)); [|lia].
  cbn [andb]. intros Hr. apply bind_Ok_inv in Hr as (cs & Hcs & Hr).
  destruct cs as [|ac rest]; [discriminate|]. injection Hr as <-. eauto.
Qed.

Lemma ancestor_chunk_disabled {ext : Collaborators} (cfg : Config) l :
  parent_hierarchy_levels cfg = 0 -> ancestor_chunk cfg l = Ok None.
Proof.
  intros H0. unfold ancestor_chunk. rewrite H0, andb_false_r. reflexivity.
Qed.

Lemma merge_step_all (P : Chunk -> Prop) (cfg : Config) force st c :
  (forall p c, P c -> P (Chunk.add p c)) ->
  P c ->
  Forall P (final_chunks st ++ pending st) ->
  Forall P (final_chunks (merge_step cfg force st c)
            ++ pending (merge_step cfg force st c)).
Proof.
  intros Hadd Hc Hst. apply Forall_app in Hst as [Hfin _].
  unfold merge_step, pending.
  assert (Hc' : P match prepended_small_chunk st with
                  | Some p => Chunk.add p c
                  | None => c
                  end)
    by (destruct (prepended_small_chunk st); auto).
  case_if;
    cbn [final_chunks prepended_small_chunk];
    rewrite ?app_nil_r; apply Forall_app; split; auto.
Qed.

Lemma merge_fold_all (P : Chunk -> Prop) (cfg : Config) force chunks st :
  (forall p c, P c -> P (Chunk.add p c)) ->
  Forall P chunks ->
  Forall P (final_chunks st ++ pending st) ->
  Forall P (final_chunks (fold_left (merge_step cfg force) chunks st)
            ++ pending (fold_left (merge_step cfg force) chunks st)).
Proof.
  intros Hadd Hcs; revert st; induction Hcs as [|c chunks Hc _ IH]; intros st Hst;
    [exact Hst|].
  cbn [fold_left]. now apply IH, merge_step_all.
Qed.

Lemma run_leaves_parents {ext : Collaborators} (cfg : Config) all ls :
  incl ls all ->
  forall st st',
    run_leaves cfg ls st = Ok st' ->
    Forall (parent_from cfg all) (final_chunks st ++ pending st) ->
    Forall (parent_from cfg all) (final_chunks st' ++ pending st').
Proof.
  induction ls as [|l ls IH]; intros Hincl st st' Hrun Hst.
  - now injection Hrun as <-.
  - apply run_leaves_cons_inv in Hrun as (chunks & Hp & Hrun).
    eapply IH; [eapply incl_cons_inv; exact Hincl | exact Hrun |].
    apply merge_fold_all; [now intros p c | | exact Hst].
    apply provisional_inv in Hp as (subs & ac & _ & Hac & ->).
    apply Forall_map, Forall_forall. intros c _.
    exists l. split; [apply Hincl; now left | exact Hac].
Qed.

Lemma get_chunks_parents {ext : Collaborators} (cfg : Config) ancs node out :
  get_chunks cfg ancs node = Ok out ->
  Forall (parent_from cfg (leaves cfg ancs node)) out.
Proof.
  intros Hout. apply get_chunks_run in Hout as (st & Hrun & ->).
  rewrite flush_pending.
  eapply run_leaves_parents; [apply incl_refl | exact Hrun | constructor].
Qed.

Lemma extend_merged (open : option Group) (m : Loc * Chunk) :
  merged_chunk (extend open m)
  = match option_map merged_chunk open with
    | Some p => Chunk.add p (snd m)
    | None => snd m
    end.
Proof.
  destruct open as [[x xs]|]; [|reflexivity].
  unfold merged_chunk. cbn [extend fst snd option_map].
  now rewrite map_app, fold_left_app.
Qed.

Lemma extend_members (open : option Group) (m : Loc * Chunk) :
  members (extend open m) = open_members open ++ [m].
Proof. now destruct open as [[x xs]|]. Qed.

Lemma merge_step_grouped (cfg : Config) force hs st l c :
  grouped hs st -> grouped (hs ++ [(l, c)]) (merge_step cfg force st c).
Proof.
  intros (groups & open & Hhs & Hfin & Hpend). unfold merge_step.
  pose proof (extend_merged open (l, c)) as He. cbn [snd] in He.
  rewrite Hpend, <- He. cbv zeta.
  case_if; cbn [final_chunks prepended_small_chunk].
  - exists groups, (Some (extend open (l, c))).
    cbn [open_members option_map]. rewrite extend_members, Hhs, app_assoc.
    auto.
  - exists (groups ++ [extend open (l, c)]), None.
    rewrite flat_map_app, map_app, Hfin. cbn [flat_map map open_members option_map].
    rewrite extend_members, Hhs, !app_nil_r, app_assoc. auto.
Qed.

Lemma merge_fold_grouped (cfg : Config) force l chunks :
  forall hs st,
    grouped hs st ->
    grouped (hs ++ map (pair l) chunks)
            (fold_left (merge_step cfg force) chunks st).
Proof.
  induction chunks as [|c chunks IH]; intros hs st Hst; cbn [fold_left map].
  - now rewrite app_nil_r.
  - change (hs ++ (l, c) :: map (pair l) chunks)
      with (hs ++ [(l, c)] ++ map (pair l) chunks).
    rewrite app_assoc. apply IH. now apply merge_step_grouped.
Qed.

Lemma run_leaves_grouped {ext : Collaborators} (cfg : Config) ls :
  forall hs st st',
    run_leaves cfg ls st = Ok st' ->
    grouped hs st ->
    exists hs', handed cfg ls = Ok hs' /\ grouped (hs ++ hs') st'.
Proof.
  induction ls as [|l ls IH]; intros hs st st' Hrun Hst.
  - injection Hrun as <-. exists []. now rewrite app_nil_r.
  - apply run_leaves_cons_inv in Hrun as (chunks & Hp & Hrun).
    destruct (IH _ _ _ Hrun
                (merge_fold_grouped cfg (is_force_prepend_chunk (snd l)) l
                   chunks Hst))
      as (hs' & Hhs' & Hg).
    exists (map (pair l) chunks ++ hs'). cbn [handed]. rewrite Hp, Hhs'.
    split; [reflexivity|]. now rewrite app_assoc.
Qed.

Lemma get_chunks_grouped {ext : Collaborators} (cfg : Config) ancs node out :
  get_chunks cfg ancs node = Ok out ->
  exists groups,
    handed cfg (leaves cfg ancs node) = Ok (flat_map members groups)
    /\ out = map merged_chunk groups.
Proof.
  intros Hout. apply get_chunks_run in Hout as (st & Hrun & ->).
  assert (Hinit : grouped [] init) by (exists [], None; auto).
  destruct (run_leaves_grouped _ _ Hrun Hinit)
    as (hs & Hhs & groups & open & Heq & Hfin & Hpend).
  cbn [app] in Heq. rewrite flush_pending. unfold pending. rewrite Hfin, Hpend.
  destruct open as [g|]; cbn [option_map open_members] in *.
  - exists (groups ++ [g]). rewrite flat_map_app, map_app. cbn [flat_map map].
    rewrite app_nil_r. split; congruence.
  - exists groups. rewrite !app_nil_r in *. split; congruence.
Qed.

Lemma last_shift {A} (xs : list A) :
  forall x y, last (y :: xs) x = last xs y.
Proof.
  induction xs as [|z xs IH]; intros x y; [reflexivity|].
  change (last (y :: z :: xs) x) with (last (z :: xs) x).
  now rewrite !IH.
Qed.

Lemma last_member_in (g : Group) : In (last_member g) (members g).
Proof.
  destruct g as [x xs]. unfold last_member, members. cbn [fst snd].
  revert x; induction xs as [|y xs IH]; intros x; [now left|].
  right. rewrite last_shift. apply IH.
Qed.

Lemma merged_chunk_last (g : Group) :
  Chunk.parent (merged_chunk g) = Chunk.parent (snd (last_member g))
  /\ Chunk.xpath (merged_chunk g) = Chunk.xpath (snd (last_member g))
  /\ Chunk.text (merged_chunk g)
     = concat (map (fun m => Chunk.text (snd m)) (members g)).
Proof.
  destruct g as [x xs]. unfold merged_chunk, last_member, members.
  cbn [fst snd]. revert x; induction xs as [|y xs IH]; intros x.
  - cbn. now rewrite app_nil_r.
  - cbn [map fold_left].
    destruct (IH (fst y, Chunk.add (snd x) (snd y))) as (Hp & Hx & Ht).
    cbn [fst snd] in Hp, Hx, Ht. rewrite Hp, Hx, Ht.
    rewrite (last_shift xs x y).
    assert (Hlast : forall d,
               xs <> [] \/ Chunk.parent (snd d) = Chunk.parent (snd y)
                          /\ Chunk.xpath (snd d) = Chunk.xpath (snd y) ->
               Chunk.parent (snd (last xs d)) = Chunk.parent (snd (last xs y))
               /\ Chunk.xpath (snd (last xs d)) = Chunk.xpath (snd (last xs y))).
    { intros d [Hne|Hd].
      - destruct xs as [|z xs']; [congruence|]. now rewrite !last_shift.
      - destruct xs as [|z xs']; [exact Hd|]. now rewrite !last_shift. }
    destruct (Hlast (fst y, Chunk.add (snd x) (snd y))) as (Hp' & Hx').
    { right. cbn. auto. }
    split; [exact Hp'|]. split; [exact Hx'|].
    cbn [map concat snd Chunk.add Chunk.text]. now rewrite app_assoc.
Qed.

Lemma handed_members {ext : Collaborators} (cfg : Config) ls :
  forall hs,
    handed cfg ls = Ok hs ->
    Forall (fun m => In (fst m) ls
                     /\ exists chunks,
                          provisional cfg (fst m) = Ok chunks
                          /\ In (snd m) chunks) hs.
Proof.
  induction ls as [|l ls IH]; intros hs Hhs; cbn [handed] in Hhs.
  - injection Hhs as <-. constructor.
  - apply bind_Ok_inv in Hhs as (chunks & Hp & Hhs).
    apply bind_Ok_inv in Hhs as (rest & Hrest & Hhs). injection Hhs as <-.
    apply Forall_app. split.
    + apply Forall_forall. intros m Hm. apply in_map_iff in Hm as (c & <- & Hc).
      cbn [fst snd]. split; [now left | eauto].
    + specialize (IH _ Hrest). revert IH. apply Forall_impl.
      intros m (Hin & Hex). split; [now right | exact Hex].
Qed.

Lemma provisional_hierarchy {ext : Collaborators} (cfg : Config) l chunks :
  xml_mode cfg = true -> 0 < parent_hierarchy_levels cfg ->
  provisional cfg l = Ok chunks ->
  exists subs ac,
    _build_chunks cfg l = Ok subs
    /\ context_of cfg l ac
    /\ chunks = map (Chunk.set_parent (Some ac)) subs.
Proof.
  intros Hx Hl Hp. apply provisional_inv in Hp as (subs & r & Hs & Hac & ->).
  destruct (ancestor_chunk_hierarchy cfg l Hx Hl Hac) as (ac & rest & -> & Hup).
  exists subs, ac. split; [exact Hs|]. split; [now exists rest | reflexivity].
Qed.

Lemma emit_leaf_hierarchy {ext : Collaborators} (cfg : Config) l subs ac st :
  xml_mode cfg = true -> 0 < parent_hierarchy_levels cfg ->
  _build_chunks cfg l = Ok subs ->
  context_of cfg l ac ->
  emit_leaf cfg l st
  = Ok (fold_left (merge_step cfg (is_force_prepend_chunk (snd l)))
                  (map (Chunk.set_parent (Some ac)) subs) st).
Proof.
  intros Hx Hl Hs (rest & Hup). unfold emit_leaf, provisional, ancestor_chunk.
  rewrite Hs, Hx. destruct (Z.ltb_spec 0 (parent_hierarchy_levels cfg)); [|lia].
  cbn [andb bind]. rewrite Hup. reflexivity.
Qed.

Lemma provisional_xpath {ext : Collaborators} (cfg : Config) l chunks :
  provisional cfg l = Ok chunks ->
  Forall (fun c => Chunk.xpath c = xpath l) chunks.
Proof.
  intros Hp. apply provisional_inv in Hp as (subs & r & Hs & _ & ->).
  unfold _build_chunks in Hs. apply bind_Ok_inv in Hs as (ws & _ & Hs).
  injection Hs as <-. rewrite map_map. apply Forall_map, Forall_forall.
  reflexivity.
Qed.

(** C7: in hierarchy mode the leaf branch of the traversal hands to the
    merger every chunk built from the leaf, each with the same parent:
    the first chunk built from the node [xml_nth_ancestor] gives, that
    is [parent_hierarchy_levels] levels up or the root when it is
    nearer, whose text is the first window of that node's rendering.
    The returned chunks are the runs of consecutive handed chunks merged
    by line 136; each handed chunk has the context chunk of its own
    leaf, and a returned chunk has the parent and the locator of the
    last chunk of its run.  With [parent_hierarchy_levels = 0] every
    returned chunk has no parent. *)
Theorem context_chunk_attached {ext : Collaborators} (cfg : Config) ancs node :
  (xml_mode cfg = true -> 0 < parent_hierarchy_levels cfg ->
   (forall l subs ac st,
      _build_chunks cfg l = Ok subs ->
      context_of cfg l ac ->
      let up := xml_nth_ancestor l (parent_hierarchy_levels cfg) in
      let k := climbed (parent_hierarchy_levels cfg) (fst l) in
      up = (skipn k (fst l), nth k (snd l :: fst l) (snd l))
      /\ Chunk.text ac = py_slice (render cfg up) 0 (max_text_length cfg)
      /\ Chunk.parent ac = None
      /\ provisional cfg l = Ok (map (Chunk.set_parent (Some ac)) subs)
      /\ emit_leaf cfg l st
         = Ok (fold_left (merge_step cfg (is_force_prepend_chunk (snd l)))
                         (map (Chunk.set_parent (Some ac)) subs) st))
   /\ (forall l chunks,
         provisional cfg l = Ok chunks ->
         exists subs ac,
           _build_chunks cfg l = Ok subs
           /\ context_of cfg l ac
           /\ chunks = map (Chunk.set_parent (Some ac)) subs)
   /\ (forall out,
         get_chunks cfg ancs node = Ok out ->
         exists groups,
           handed cfg (leaves cfg ancs node) = Ok (flat_map members groups)
           /\ out = map merged_chunk groups
           /\ Forall (fun m => In (fst m) (leaves cfg ancs node)
                               /\ exists ac,
                                    context_of cfg (fst m) ac
                                    /\ Chunk.parent (snd m) = Some ac)
                     (flat_map members groups)
           /\ Forall (fun g => In (last_member g) (members g)
                               /\ Chunk.xpath (merged_chunk g)
                                  = xpath (fst (last_member g))
                               /\ exists ac,
                                    context_of cfg (fst (last_member g)) ac
                                    /\ Chunk.parent (merged_chunk g) = Some ac)
                     groups))
  /\ (parent_hierarchy_levels cfg = 0 ->
      forall out,
        get_chunks cfg ancs node = Ok out ->
        Forall (fun q => Chunk.parent q = None) out).
Proof.
  split.
  - intros Hx Hl. split; [|split].
    + intros l subs ac st Hs Hctx. cbv zeta. pose proof Hctx as (rest & Hup).
      split; [unfold xml_nth_ancestor, climbed; apply nth_ancestor_clipped|].
      split; [eapply build_chunks_first_slice; exact Hup|].
      split; [exact (Forall_inv (build_chunks_parent _ _ Hup))|].
      split; [|now apply emit_leaf_hierarchy].
      unfold provisional, ancestor_chunk. rewrite Hs, Hx.
      destruct (Z.ltb_spec 0 (parent_hierarchy_levels cfg)); [|lia].
      cbn [andb bind]. rewrite Hup. reflexivity.
    + intros l chunks Hp. now apply provisional_hierarchy.
    + intros out Hout.
      destruct (get_chunks_grouped _ _ _ Hout) as (groups & Hh & ->).
      exists groups. split; [exact Hh|]. split; [reflexivity|].
      assert (Hmem : Forall (fun m => In (fst m) (leaves cfg ancs node)
                                      /\ Chunk.xpath (snd m) = xpath (fst m)
                                      /\ exists ac,
                                           context_of cfg (fst m) ac
                                           /\ Chunk.parent (snd m) = Some ac)
                            (flat_map members groups)).
      { pose proof (handed_members _ _ Hh) as Hm. revert Hm.
        apply Forall_impl. intros m (Hin & chunks & Hp & Hc).
        split; [exact Hin|]. split.
        - pose proof (provisional_xpath _ _ Hp) as Hxp.
          rewrite Forall_forall in Hxp. now apply Hxp.
        - destruct (provisional_hierarchy _ _ Hx Hl Hp)
            as (subs & ac & _ & Hctx & ->).
          exists ac. split; [exact Hctx|].
          apply in_map_iff in Hc as (c & <- & _). reflexivity. }
      split.
      * revert Hmem. apply Forall_impl. intros m (Hin & _ & Hex). auto.
      * apply Forall_forall. intros g Hg.
        pose proof (last_member_in g) as Hlast.
        split; [exact Hlast|].
        rewrite Forall_forall in Hmem.
        destruct (Hmem (last_member g)) as (_ & Hxp & ac & Hctx & Hpar).
        { apply in_flat_map. exists g. auto. }
        destruct (merged_chunk_last g) as (Hp & Hx' & _).
        split; [congruence|]. exists ac. split; [exact Hctx | congruence].
  - intros H0 out Hout. apply get_chunks_parents in Hout.
    revert Hout. apply Forall_impl. intros q (l & _ & Hac).
    rewrite ancestor_chunk_disabled in Hac by exact H0. congruence.
Qed.

Lemma context_chunk_attached_witness :
  texts_and_parents
    (get_chunks (ext := plain) (xml_cfg 8 20 1) [] doc_two_sections)
  = Ok [("ab0123456789"%string, Some "T:0123456789"%string)]
  /\ (exists groups,
        handed (ext := plain) (xml_cfg 8 20 1)
          (leaves (xml_cfg 8 20 1) [] doc_two_sections)
        = Ok (flat_map members groups)
        /\ get_chunks (ext := plain) (xml_cfg 8 20 1) [] doc_two_sections
           = Ok (map merged_chunk groups)
        /\ Forall (fun m => exists ac,
                     context_of (ext := plain) (xml_cfg 8 20 1) (fst m) ac
                     /\ Chunk.parent (snd m) = Some ac)
                  (flat_map members groups))
  /\ (exists out,
        get_chunks (ext := plain) (xml_cfg 8 20 0) [] doc_two_sections = Ok out
        /\ Forall (fun q => Chunk.parent q = None) out).
Proof.
  split; [reflexivity|]. split.
  - destruct (context_chunk_attached (ext := plain) (xml_cfg 8 20 1) []
                doc_two_sections) as (Hier & _).
    destruct (Hier eq_refl eq_refl) as (_ & _ & Hout).
    destruct (Hout _ eq_refl) as (groups & Hh & Heq & Hmem & _).
    exists groups. split; [exact Hh|]. split; [now rewrite <- Heq|].
    revert Hmem. apply Forall_impl. intros m (_ & Hex). exact Hex.
  - eexists. split; [reflexivity|].
    apply (context_chunk_attached (ext := plain) (xml_cfg 8 20 0) []
             doc_two_sections); reflexivity.
Defined.

(** ** Tables *)

Lemma merge_windows_flush (cfg : Config) chunks :
  (forall i, (S i < length chunks)%nat ->
     min_text_length cfg <= len (nth i (map Chunk.text chunks) [])) ->
  forall st,
    prepended_small_chunk st = None ->
    flush (fold_left (merge_step cfg false) chunks st)
    = final_chunks st ++ chunks.
Proof.
  induction chunks as [|c chunks IH]; intros Hfull st Hnone.
  - unfold flush. cbn [fold_left]. rewrite Hnone. now rewrite app_nil_r.
  - cbn [fold_left]. unfold merge_step at 2. rewrite Hnone, orb_false_r.
    destruct chunks as [|c2 chunks].
    + cbn [fold_left]. unfold flush.
      destruct (len (Chunk.text c) <? min_text_length cfg); reflexivity.
    + pose proof (Hfull 0%nat ltac:(cbn [length]; lia)) as H0. cbn [map nth] in H0.
      destruct (Z.ltb_spec (len (Chunk.text c)) (min_text_length cfg)); [lia|].
      rewrite IH; cbn [final_chunks prepended_small_chunk]; trivial.
      * now rewrite <- app_assoc.
      * intros i Hi. apply (Hfull (S i)). cbn [length] in *. lia.
Qed.

Lemma is_leaf_table (cfg : Config) ancs node :
  tag node = TABLE_NAME -> sub_chunk_tables cfg = false ->
  is_leaf cfg ancs node = true.
Proof.
  intros Ht Hs. unfold is_leaf, is_table_leaf_node.
  rewrite Ht, Hs, String.eqb_refl. reflexivity.
Qed.

Lemma is_leaf_sub_tables (cfg : Config) ancs node :
  sub_chunk_tables cfg = true ->
  is_leaf cfg ancs node
  = is_text_leaf_node node || is_structure_orphaned_node ancs node.
Proof.
  intros Hs. unfold is_leaf, is_table_leaf_node.
  rewrite Hs, andb_false_r. reflexivity.
Qed.

(** C8 (as amended): with [sub_chunk_tables = false] a table-typed node
    is a leaf whatever it contains: its chunks are those of one rendering
    of the node (the table flattening in plain-text mode, the
    full-structure rendering in xml mode), and [get_chunks] on that node
    returns exactly them when the minimum does not exceed the maximum and
    the node is not force-merge.  With [sub_chunk_tables = true] the tag
    plays no part: the node is a leaf or is descended into according to
    the markers alone. *)
Theorem table_node_chunks {ext : Collaborators} (cfg : Config) ancs node st :
  tag node = TABLE_NAME ->
  (sub_chunk_tables cfg = false ->
   _traverse cfg ancs node st = emit_leaf cfg (ancs, node) st
   /\ leaves cfg ancs node = [(ancs, node)]
   /\ render cfg (ancs, node)
      = (if xml_mode cfg
         then simplified_xml (ancs, node) (whitespace_normalize_text cfg)
         else xhtml_table_to_text (ancs, node) (whitespace_normalize_text cfg))
   /\ (forall out,
         min_text_length cfg <= max_text_length cfg ->
         is_force_prepend_chunk node = false ->
         get_chunks cfg ancs node = Ok out ->
         exists subs ac,
           _build_chunks cfg (ancs, node) = Ok subs
           /\ ancestor_chunk cfg (ancs, node) = Ok ac
           /\ out = map (Chunk.set_parent ac) subs))
  /\ (sub_chunk_tables cfg = true ->
      is_leaf cfg ancs node
      = is_text_leaf_node node || is_structure_orphaned_node ancs node
      /\ _traverse cfg ancs node st
         = if is_text_leaf_node node || is_structure_orphaned_node ancs node
           then emit_leaf cfg (ancs, node) st
           else traverse_children cfg ancs node st).
Proof.
  intros Ht. split; intros Hs.
  - pose proof (is_leaf_table cfg ancs node Ht Hs) as Hleaf.
    assert (Hls : leaves cfg ancs node = [(ancs, node)])
      by (destruct node; cbn [leaves]; now rewrite Hleaf).
    split; [rewrite traverse_unfold; now rewrite Hleaf|].
    split; [exact Hls|]. split.
    { unfold render. cbn [snd]. now rewrite Ht, String.eqb_refl. }
    intros out Hmin Hforce Hout.
    apply get_chunks_run in Hout as (st' & Hrun & ->). rewrite Hls in Hrun.
    apply run_leaves_cons_inv in Hrun as (chunks & Hp & Hrun).
    injection Hrun as <-. cbn [snd]. rewrite Hforce.
    pose proof Hp as Hinv.
    apply provisional_inv in Hinv as (subs & ac & Hsubs & Hac & ->).
    exists subs, ac. split; [exact Hsubs|]. split; [exact Hac|].
    rewrite merge_windows_flush; trivial.
    intros i Hi. rewrite set_parent_texts. rewrite length_map in Hi.
    destruct subs as [|c subs]; [cbn [length] in Hi; lia|].
    pose proof (build_chunks_Ok_bounded _ _ Hsubs) as Hb. apply Forall_inv in Hb.
    assert (Hm : 0 < max_text_length cfg) by lia.
    rewrite (@build_chunks_full_windows ext cfg (ancs, node) _ i Hm Hsubs Hi).
    exact Hmin.
  - split; [now apply is_leaf_sub_tables|].
    rewrite traverse_unfold. now rewrite is_leaf_sub_tables.
Qed.

Lemma table_node_chunks_witness :
  texts (get_chunks (ext := plain) (text_cfg 8 10) [] bare_table)
  = Ok ["row one.ro"%string; "w two."%string]
  /\ exists subs,
       _build_chunks (ext := plain) (text_cfg 8 10) ([], bare_table) = Ok subs
       /\ get_chunks (ext := plain) (text_cfg 8 10) [] bare_table = Ok subs.
Proof.
  split; [reflexivity|].
  destruct (table_node_chunks (ext := plain) (text_cfg 8 10) [] bare_table init
              eq_refl) as [Hoff _].
  destruct (Hoff eq_refl) as (_ & _ & _ & Hout).
  destruct (Hout _ ltac:(simpl; lia) eq_refl eq_refl)
    as (subs & ac & Hsubs & Hac & Heq).
  exists subs. split; [exact Hsubs|].
  injection Hac as <-. injection Hsubs as <-. reflexivity.
Defined.

(** A table-typed node that carries a marker while nothing below it does
    stays a single leaf when [sub_chunk_tables] is true: the traversal
    does not descend into its rows. *)
Lemma marked_table_not_descended :
  tag marked_table = TABLE_NAME
  /\ sub_chunk_tables (sub_tables_cfg 8 100) = true
  /\ _traverse (ext := plain) (sub_tables_cfg 8 100) [] marked_table init
     = emit_leaf (ext := plain) (sub_tables_cfg 8 100) ([], marked_table) init
  /\ _traverse (ext := plain) (sub_tables_cfg 8 100) [] marked_table init
     <> traverse_children (ext := plain) (sub_tables_cfg 8 100) [] marked_table init
  /\ texts (get_chunks (ext := plain) (sub_tables_cfg 8 100) [] marked_table)
     = Ok ["row one.row two."%string].
Proof.
  repeat (split; [reflexivity|]). split; [|reflexivity].
  vm_compute. discriminate.
Qed.

(** ** Trees without markers *)

Lemma unmarked_not_structural (ns : list Node) :
  Forall unmarked ns -> existsb is_structural ns = false.
Proof.
  induction 1 as [|n ns Hn _ IH]; [reflexivity|].
  cbn [existsb]. unfold is_structural at 1. now rewrite Hn, IH.
Qed.

Lemma unmarked_leaves (cfg : Config) node :
  forall ancs,
    Forall unmarked ancs ->
    Forall unmarked (node :: descendants node) ->
    sub_chunk_tables cfg = true \/ Forall not_table (node :: descendants node) ->
    leaves cfg ancs node = [].
Proof.
  induction node as [t s x cs IH] using Node_forall_ind.
  intros ancs Hancs Hall Htab.
  assert (Hleaf : is_leaf cfg ancs (mkNode t s x cs) = false).
  { assert (Htable : is_table_leaf_node cfg (mkNode t s x cs) = false).
    { unfold is_table_leaf_node. apply andb_false_iff.
      destruct Htab as [->|Htab]; [now right|]. left.
      apply String.eqb_neq. exact (Forall_inv Htab). }
    assert (Hs : is_structural (mkNode t s x cs) = false).
    { pose proof (Forall_inv Hall) as Hn. unfold is_structural.
      now rewrite Hn. }
    unfold is_leaf, is_text_leaf_node, is_structure_orphaned_node,
      is_descendant_of_structural.
    now rewrite Htable, Hs, (unmarked_not_structural Hancs). }
  cbn [leaves]. rewrite Hleaf.
  assert (Hup : Forall unmarked (mkNode t s x cs :: ancs))
    by (constructor; [exact (Forall_inv Hall) | exact Hancs]).
  apply Forall_inv_tail in Hall. cbn [descendants] in Hall.
  assert (Htab' : sub_chunk_tables cfg = true
                  \/ Forall not_table (descendants (mkNode t s x cs)))
    by (destruct Htab as [?|Htab]; [now left | right; exact (Forall_inv_tail Htab)]).
  cbn [descendants] in Htab'. clear Htab Hleaf.
  revert Hup. generalize (mkNode t s x cs :: ancs) as up. intros up Hup.
  induction IH as [|c cs Hc _ IHcs]; [reflexivity|].
  cbn [flat_map] in *. apply Forall_app in Hall as [Hc_all Hcs_all].
  rewrite (Hc _ Hup Hc_all), IHcs; trivial.
  - destruct Htab' as [?|Htab']; [now left|right].
    now apply Forall_app in Htab' as [_ ?].
  - destruct Htab' as [?|Htab']; [now left|right].
    now apply Forall_app in Htab' as [? _].
Qed.

(** C9 (as amended): when no node carries a marker (the node, what is
    below it and what is above it) and no table-typed node is met with
    [sub_chunk_tables] false, no node is classified a leaf and
    [get_chunks] returns no chunk. *)
Theorem unmarked_tree_no_chunks {ext : Collaborators} (cfg : Config) ancs node :
  Forall unmarked (ancs ++ node :: descendants node) ->
  sub_chunk_tables cfg = true \/ Forall not_table (node :: descendants node) ->
  leaves cfg ancs node = [] /\ get_chunks cfg ancs node = Ok [].
Proof.
  intros Hall Htab. apply Forall_app in Hall as [Hancs Hall].
  pose proof (unmarked_leaves cfg Hancs Hall Htab) as Hls.
  split; [exact Hls|].
  unfold get_chunks. rewrite traverse_leaves, Hls. reflexivity.
Qed.

Lemma unmarked_tree_no_chunks_witness :
  get_chunks (ext := plain) (sub_tables_cfg 8 100) [] doc_table = Ok []
  /\ get_chunks (ext := plain) (text_cfg 8 100) []
       (elem "doc" [elem "p" [mkNode "span" None "some text" []]]) = Ok [].
Proof.
  split.
  - apply (@unmarked_tree_no_chunks plain (sub_tables_cfg 8 100) []
             doc_table).
    + repeat constructor.
    + now left.
  - apply (@unmarked_tree_no_chunks plain (text_cfg 8 100) []
             (elem "doc" [elem "p" [mkNode "span" None "some text" []]])).
    + repeat constructor.
    + right. repeat constructor; discriminate.
Defined.

(** A table-typed node is a leaf under the default [sub_chunk_tables]
    although no node carries a marker. *)
Lemma unmarked_table_yields_chunk :
  Forall unmarked (doc_table :: descendants doc_table)
  /\ is_leaf (text_cfg 8 100) [doc_table] bare_table = true
  /\ texts (get_chunks (ext := plain) (text_cfg 8 100) [] doc_table)
     = Ok ["row one.row two."%string].
Proof.
  split; [repeat constructor | split; reflexivity].
Qed.

(** ** Inputs on which [get_chunks] raises *)

Lemma build_chunks_zero_maximum {ext : Collaborators} (cfg : Config) l :
  max_text_length cfg = 0 -> _build_chunks cfg l = Raise ValueError.
Proof.
  intros H0. unfold _build_chunks.
  rewrite node_text_splits_nonpositive by lia. now rewrite H0.
Qed.

Lemma emit_leaf_zero_maximum {ext : Collaborators} (cfg : Config) l st :
  max_text_length cfg = 0 -> emit_leaf cfg l st = Raise ValueError.
Proof.
  intros H0. unfold emit_leaf, provisional.
  now rewrite build_chunks_zero_maximum.
Qed.

Lemma emit_leaf_empty_context {ext : Collaborators} (cfg : Config) l st :
  xml_mode cfg = true -> 0 < parent_hierarchy_levels cfg ->
  0 < max_text_length cfg ->
  render cfg (xml_nth_ancestor l (parent_hierarchy_levels cfg)) = [] ->
  emit_leaf cfg l st = Raise IndexError.
Proof.
  intros Hx Hl Hm Hempty. unfold emit_leaf, provisional, ancestor_chunk.
  destruct (build_chunks_texts cfg l Hm) as (subs & -> & _).
  rewrite Hx. destruct (Z.ltb_spec 0 (parent_hierarchy_levels cfg)); [|lia].
  cbn [bind andb]. rewrite (build_chunks_empty_render cfg _ Hm Hempty).
  reflexivity.
Qed.

Lemma emit_leaf_negative_maximum {ext : Collaborators} (cfg : Config) l st :
  xml_mode cfg = true -> 0 < parent_hierarchy_levels cfg ->
  max_text_length cfg < 0 ->
  emit_leaf cfg l st = Raise IndexError.
Proof.
  intros Hx Hl Hm. unfold emit_leaf, provisional, ancestor_chunk, _build_chunks.
  rewrite !node_text_splits_nonpositive by lia.
  destruct (Z.eqb_spec (max_text_length cfg) 0); [lia|].
  rewrite Hx. destruct (Z.ltb_spec 0 (parent_hierarchy_levels cfg)); [|lia].
  reflexivity.
Qed.

(** The part of C10 that holds: a node with no children and no marker,
    under no marked ancestor and not a table leaf, gives the empty
    list for every configuration. *)
Lemma get_chunks_empty_tree {ext : Collaborators} (cfg : Config) t x :
  is_table_leaf_node cfg (mkNode t None x []) = false ->
  get_chunks cfg [] (mkNode t None x []) = Ok [].
Proof.
  intros Ht. unfold get_chunks. rewrite traverse_unfold.
  unfold is_leaf. rewrite Ht. reflexivity.
Qed.

(** C10: [get_chunks] raises on a zero maximum ([range] refuses a zero
    step), and in hierarchy mode when the context ancestor yields no
    chunk, which happens for a negative maximum and for an ancestor
    whose rendering is empty ([[0]] on an empty list). *)
Theorem get_chunks_raises :
  get_chunks (ext := plain) (text_cfg 8 0) [] doc_small_then_full
  = Raise ValueError
  /\ get_chunks (ext := plain) (xml_cfg 8 (-1) 1) [] doc_small_then_full
     = Raise IndexError
  /\ render (ext := own_text) (xml_cfg 8 100 1) ([], doc_small_then_full) = []
  /\ get_chunks (ext := own_text) (xml_cfg 8 100 1) [] doc_small_then_full
     = Raise IndexError.
Proof.
  repeat split; reflexivity.
Qed.

(** * Further properties of the code *)

(** ** The chunks of one node *)

Lemma range_len_ceiling (L m : Z) :
  0 <= L -> 0 < m -> range_len 0 L m = (L + m - 1) / m.
Proof.
  intros HL Hm. unfold range_len.
  destruct (Z.ltb_spec 0 m); [|lia]. destruct (Z.ltb_spec 0 L); cbn [andb].
  - replace (L + m - 1) with (L - 1 - 0 + 1 * m) by lia.
    rewrite Z.div_add by lia. lia.
  - destruct (Z.ltb_spec m 0); [lia|]. cbn [andb].
    symmetry. apply Z.div_small. lia.
Qed.

(** X1: for a maximum of at least 1, [_build_chunks] returns the ceiling
    of text length over maximum many chunks, and each carries the
    cleaned tag, the serialized form, the locator and the marker of the
    node (the empty string when it has none) and no parent. *)
Theorem build_chunks_count {ext : Collaborators} (cfg : Config) (l : Loc) :
  0 < max_text_length cfg ->
  exists chunks,
    _build_chunks cfg l = Ok chunks
    /\ len chunks
       = (len (render cfg l) + max_text_length cfg - 1) / max_text_length cfg
    /\ Forall (fun c => Chunk.tag c = clean_tag (snd l)
                        /\ Chunk.xml c = tostring l
                        /\ Chunk.structure c = structure_or_empty (snd l)
                        /\ Chunk.xpath c = xpath l
                        /\ Chunk.parent c = None) chunks.
Proof.
  intros Hm. destruct (build_chunks_texts cfg l Hm) as (chunks & Hb & Ht).
  exists chunks. split; [exact Hb|]. split.
  - unfold len at 1. rewrite <- (length_map Chunk.text), Ht, windows_length.
    unfold window_count.
    rewrite range_len_ceiling by (trivial; apply len_nonneg).
    apply Z2Nat.id. apply Z.div_pos; [|lia].
    pose proof (len_nonneg (render cfg l)). lia.
  - unfold _build_chunks in Hb. apply bind_Ok_inv in Hb as (ws & _ & Hb).
    injection Hb as <-. apply Forall_map, Forall_forall. intros w _.
    cbn. auto.
Qed.

Lemma build_chunks_count_witness :
  exists chunks,
    _build_chunks (ext := plain) (text_cfg 8 100) ([], long_leaf) = Ok chunks
    /\ len chunks = 3.
Proof.
  destruct (build_chunks_count (ext := plain) (text_cfg 8 100) ([], long_leaf))
    as (chunks & Hb & Hn & _); [reflexivity|].
  exists chunks. split; [exact Hb|]. rewrite Hn. reflexivity.
Defined.

(** ** The leaves the traversal reaches *)

Lemma leaves_unfold (cfg : Config) ancs node :
  leaves cfg ancs node
  = if is_leaf cfg ancs node then [(ancs, node)]
    else flat_map (leaves cfg (node :: ancs)) (children node).
Proof. now destruct node. Qed.

Lemma descendants_unfold (node : Node) :
  descendants node = flat_map (fun c => c :: descendants c) (children node).
Proof. now destruct node. Qed.

Lemma in_descendants_child (node c d : Node) :
  In c (children node) -> In d (c :: descendants c) -> In d (descendants node).
Proof.
  intros Hc Hd. rewrite descendants_unfold. apply in_flat_map. eauto.
Qed.

(** X2: every leaf the traversal reaches is classified a leaf, is the
    node or one of its descendants, and every node between it and the
    starting node is a branch, so no leaf lies inside another leaf. *)
Theorem leaves_sound (cfg : Config) node :
  forall ancs l,
    In l (leaves cfg ancs node) ->
    is_leaf cfg (fst l) (snd l) = true
    /\ In (snd l) (node :: descendants node)
    /\ exists up,
         fst l = up ++ ancs
         /\ forall u1 m u2,
              up = u1 ++ m :: u2 -> is_leaf cfg (u2 ++ ancs) m = false.
Proof.
  induction node as [t s x cs IH] using Node_forall_ind. intros ancs l Hl.
  rewrite leaves_unfold in Hl.
  destruct (is_leaf cfg ancs (mkNode t s x cs)) eqn:Hleaf.
  - destruct Hl as [<-|[]]. cbn [fst snd]. split; [exact Hleaf|].
    split; [now left|]. exists []. split; [reflexivity|].
    intros [|? ?] m u2 H; discriminate H.
  - cbn [children] in Hl. apply in_flat_map in Hl as (c & Hc & Hl).
    rewrite Forall_forall in IH.
    destruct (IH c Hc _ _ Hl) as (Hlf & Hin & up & Hup & Hbr).
    split; [exact Hlf|]. split.
    { right. eapply in_descendants_child; [|exact Hin]. exact Hc. }
    exists (up ++ [mkNode t s x cs]). split.
    { rewrite Hup, <- app_assoc. reflexivity. }
    intros u1 m u2 Hsplit.
    destruct u2 as [|z u2'] using rev_ind.
    + apply app_inj_tail in Hsplit as [_ <-]. exact Hleaf.
    + clear IHu2'.
      change (u1 ++ m :: u2' ++ [z]) with (u1 ++ (m :: u2') ++ [z]) in Hsplit.
      rewrite app_assoc in Hsplit.
      apply app_inj_tail in Hsplit as [Hup' <-].
      rewrite <- app_assoc. cbn [app]. eapply Hbr. exact Hup'.
Qed.

Lemma leaves_sound_witness :
  is_leaf (text_cfg 8 10) [doc_lim] lim_item = true
  /\ In lim_item (doc_lim :: descendants doc_lim).
Proof.
  destruct (@leaves_sound (text_cfg 8 10) doc_lim [] ([doc_lim], lim_item))
    as (H1 & H2 & _).
  - right. left. reflexivity.
  - split; [exact H1 | exact H2].
Defined.

Lemma subseq_app {A} (a1 a2 b1 b2 : list A) :
  subseq a1 a2 -> subseq b1 b2 -> subseq (a1 ++ b1) (a2 ++ b2).
Proof.
  induction 1; intros Hb; cbn [app];
    [exact Hb | apply subseq_skip; auto | apply subseq_take; auto].
Qed.

Lemma subseq_flat_map {A B} (f g : A -> list B) (l : list A) :
  Forall (fun a => subseq (f a) (g a)) l ->
  subseq (flat_map f l) (flat_map g l).
Proof.
  induction 1; cbn [flat_map]; [constructor | now apply subseq_app].
Qed.

Lemma subseq_all_skipped {A} (l : list A) : subseq [] l.
Proof. induction l; constructor; auto. Qed.

(** X3: the leaves are reached in document order: their list is the
    pre-order list of the nodes of the tree with the other nodes left
    out. *)
Theorem leaves_document_order (cfg : Config) node :
  forall ancs,
    subseq (map snd (leaves cfg ancs node)) (node :: descendants node).
Proof.
  induction node as [t s x cs IH] using Node_forall_ind. intros ancs.
  rewrite leaves_unfold.
  destruct (is_leaf cfg ancs (mkNode t s x cs)).
  - cbn [map snd]. apply subseq_take, subseq_all_skipped.
  - apply subseq_skip. rewrite descendants_unfold, flat_map_concat_map.
    cbn [children]. rewrite concat_map, map_map, <- flat_map_concat_map.
    apply subseq_flat_map. revert IH. apply Forall_impl. intros c Hc. apply Hc.
Qed.

Lemma not_leaf_inv (cfg : Config) ancs node :
  is_leaf cfg ancs node = false ->
  is_table_leaf_node cfg node = false
  /\ is_text_leaf_node node = false
  /\ is_structure_orphaned_node ancs node = false.
Proof.
  unfold is_leaf. intros H. apply orb_false_iff in H as [H H3].
  apply orb_false_iff in H as [H1 H2]. auto.
Qed.

Lemma marked_descendant_has_structural_children (node d : Node) :
  In d (descendants node) -> is_structural d = true ->
  has_structural_children node = true.
Proof.
  intros Hd Hs. apply has_structural_children_iff. exists d.
  split; [exact Hd | now apply is_structural_iff].
Qed.

(** X4: a node that carries a marker while nothing below it does is
    never passed over: the traversal reaches it as a leaf, or reaches a
    table leaf that contains it. *)
Theorem text_leaf_reached (cfg : Config) node :
  forall ancs d,
    In d (node :: descendants node) ->
    is_text_leaf_node d = true ->
    exists l,
      In l (leaves cfg ancs node)
      /\ (snd l = d
          \/ (is_table_leaf_node cfg (snd l) = true
              /\ In d (descendants (snd l)))).
Proof.
  induction node as [t s x cs IH] using Node_forall_ind. intros ancs d Hd Htl.
  rewrite leaves_unfold.
  destruct (is_leaf cfg ancs (mkNode t s x cs)) eqn:Hleaf.
  - exists (ancs, mkNode t s x cs). split; [now left|]. cbn [snd].
    destruct Hd as [->|Hd]; [now left|]. right. split; [|exact Hd].
    apply andb_true_iff in Htl as [Hs _].
    pose proof (marked_descendant_has_structural_children _ _ Hd Hs) as Hsc.
    unfold is_leaf, is_text_leaf_node, is_structure_orphaned_node in Hleaf.
    rewrite Hsc in Hleaf. cbn [negb] in Hleaf.
    rewrite !andb_false_r, !orb_false_r in Hleaf. exact Hleaf.
  - destruct Hd as [<-|Hd].
    + apply not_leaf_inv in Hleaf as (_ & Hno & _). congruence.
    + rewrite descendants_unfold in Hd. cbn [children] in *.
      apply in_flat_map in Hd as (c & Hc & Hd).
      rewrite Forall_forall in IH.
      destruct (IH c Hc (mkNode t s x cs :: ancs) d Hd Htl) as (l & Hl & Hcase).
      exists l. split; [|exact Hcase]. apply in_flat_map. eauto.
Qed.

Lemma text_leaf_reached_witness :
  exists l,
    In l (leaves (text_cfg 8 10) [] doc_lim)
    /\ (snd l = lim_item
        \/ (is_table_leaf_node (text_cfg 8 10) (snd l) = true
            /\ In lim_item (descendants (snd l)))).
Proof.
  apply (@text_leaf_reached (text_cfg 8 10) doc_lim [] lim_item).
  - right. right. left. reflexivity.
  - reflexivity.
Defined.

(** X5: below a marked node nothing is skipped: when the node or one of
    its ancestors carries a marker, every childless element of its
    subtree is a leaf or lies inside one. *)
Theorem marked_subtree_covered (cfg : Config) node :
  forall ancs d,
    is_descendant_of_structural ancs || is_structural node = true ->
    In d (node :: descendants node) ->
    children d = [] ->
    exists l,
      In l (leaves cfg ancs node) /\ In d (snd l :: descendants (snd l)).
Proof.
  induction node as [t s x cs IH] using Node_forall_ind.
  intros ancs d Hmark Hd Hchild. rewrite leaves_unfold.
  destruct (is_leaf cfg ancs (mkNode t s x cs)) eqn:Hleaf.
  - exists (ancs, mkNode t s x cs). split; [now left | exact Hd].
  - destruct Hd as [<-|Hd].
    + cbn [children] in Hchild. subst cs.
      apply not_leaf_inv in Hleaf as (_ & Htext & Horph).
      unfold is_text_leaf_node, is_structure_orphaned_node in Htext, Horph.
      cbn [has_structural_children existsb negb] in Htext, Horph.
      rewrite andb_true_r in Htext, Horph.
      rewrite Htext, Horph in Hmark. discriminate Hmark.
    + rewrite descendants_unfold in Hd. cbn [children] in *.
      apply in_flat_map in Hd as (c & Hc & Hd).
      rewrite Forall_forall in IH.
      destruct (IH c Hc (mkNode t s x cs :: ancs) d) as (l & Hl & Hin);
        trivial.
      * unfold is_descendant_of_structural in *. cbn [existsb].
        apply orb_true_iff in Hmark as [Ha|Hn]; [rewrite Ha | rewrite Hn];
          now rewrite ?orb_true_r.
      * exists l. split; [|exact Hin]. apply in_flat_map. eauto.
Qed.

Lemma marked_subtree_covered_witness :
  exists l,
    In l (leaves (sub_tables_cfg 8 100) [] marked_table)
    /\ In (mkNode "tr" None "row two." [])
          (snd l :: descendants (snd l)).
Proof.
  apply (@marked_subtree_covered (sub_tables_cfg 8 100) marked_table []
           (mkNode "tr" None "row two." [])).
  - reflexivity.
  - right. right. left. reflexivity.
  - reflexivity.
Defined.

(** ** The output list only grows *)

Lemma merge_step_shift (cfg : Config) force pre st c :
  merge_step cfg force (shift pre st) c = shift pre (merge_step cfg force st c).
Proof.
  unfold merge_step, shift. cbn [final_chunks prepended_small_chunk].
  case_if; cbn [final_chunks prepended_small_chunk];
    now rewrite ?app_assoc.
Qed.

Lemma merge_fold_shift (cfg : Config) force pre chunks st :
  fold_left (merge_step cfg force) chunks (shift pre st)
  = shift pre (fold_left (merge_step cfg force) chunks st).
Proof.
  revert st; induction chunks as [|c chunks IH]; intros st; [reflexivity|].
  cbn [fold_left]. now rewrite merge_step_shift, IH.
Qed.

Lemma run_leaves_shift {ext : Collaborators} (cfg : Config) pre ls st :
  run_leaves cfg ls (shift pre st) = shifted pre (run_leaves cfg ls st).
Proof.
  revert st; induction ls as [|l ls IH]; intros st; [reflexivity|].
  unfold run_leaves, shifted. cbn [foldM]. unfold emit_leaf at 1 3.
  destruct (provisional cfg l) as [chunks|e]; [|reflexivity].
  cbn [bind]. rewrite merge_fold_shift. apply IH.
Qed.

(** X6: the traversal only appends to the output list.  Started with
    [pre] already emitted it gives the result it gives without, with
    [pre] in front; so what was emitted is neither changed nor removed,
    and a subtree traversed while nothing is pending contributes exactly
    what [get_chunks] returns for it. *)
Theorem emitted_chunks_kept {ext : Collaborators} (cfg : Config) ancs node :
  (forall pre st,
     _traverse cfg ancs node (shift pre st)
     = shifted pre (_traverse cfg ancs node st))
  /\ (forall st st',
        _traverse cfg ancs node st = Ok st' ->
        exists added, final_chunks st' = final_chunks st ++ added)
  /\ (forall pre,
        bind (_traverse cfg ancs node (Build_State pre None))
             (fun st => Ok (flush st))
        = bind (get_chunks cfg ancs node) (fun out => Ok (pre ++ out))).
Proof.
  assert (Hframe : forall pre st,
             _traverse cfg ancs node (shift pre st)
             = shifted pre (_traverse cfg ancs node st))
    by (intros; rewrite !traverse_leaves; apply run_leaves_shift).
  split; [exact Hframe|]. split.
  - intros [fin p] st' Hst'.
    pose proof (Hframe fin (Build_State [] p)) as H.
    change (shift fin (Build_State [] p)) with (Build_State (fin ++ []) p) in H.
    rewrite app_nil_r, Hst' in H. unfold shifted in H.
    destruct (_traverse cfg ancs node (Build_State [] p)) as [st0|e];
      [|discriminate H].
    injection H as ->. now exists (final_chunks st0).
  - intros pre. pose proof (Hframe pre init) as H.
    change (shift pre init) with (Build_State (pre ++ []) None) in H.
    rewrite app_nil_r in H. rewrite H. unfold get_chunks, shifted.
    destruct (_traverse cfg ancs node init) as [st0|e]; [|reflexivity].
    cbn [bind]. f_equal. rewrite !flush_pending. unfold shift, pending.
    cbn [final_chunks prepended_small_chunk]. now rewrite app_assoc.
Qed.

Lemma emitted_chunks_kept_witness :
  exists q added,
    _traverse (ext := plain) (text_cfg 8 10) [] doc_lim
      (Build_State [q] None) = Ok (Build_State (q :: added) None).
Proof.
  destruct (emitted_chunks_kept (ext := plain) (text_cfg 8 10) [] doc_lim)
    as (_ & Hkeep & _).
  pose (q := Chunk.mk "p" (lit "earlier!") "p" "p" "p" None).
  destruct (Hkeep (Build_State [q] None) _ eq_refl) as (added & Hadd).
  exists q, added. cbn in Hadd. injection Hadd as <-. reflexivity.
Defined.

(** ** When nothing is merged *)

Lemma merge_fold_no_merge (cfg : Config) chunks :
  min_text_length cfg <= 1 ->
  Forall (fun c => 0 < len (Chunk.text c)) chunks ->
  forall st,
    prepended_small_chunk st = None ->
    fold_left (merge_step cfg false) chunks st
    = Build_State (final_chunks st ++ chunks) None.
Proof.
  intros Hmin Hcs; induction Hcs as [|c chunks Hc _ IH]; intros st Hnone.
  - cbn [fold_left]. rewrite app_nil_r. destruct st. cbn in *. now subst.
  - cbn [fold_left]. unfold merge_step at 2. rewrite Hnone, orb_false_r.
    destruct (Z.ltb_spec (len (Chunk.text c)) (min_text_length cfg)); [lia|].
    rewrite IH by reflexivity. cbn [final_chunks]. now rewrite <- app_assoc.
Qed.

Lemma run_leaves_cons {ext : Collaborators} (cfg : Config) l ls st :
  run_leaves cfg (l :: ls) st
  = (st' <- emit_leaf cfg l st ;; run_leaves cfg ls st').
Proof. reflexivity. Qed.

Lemma run_leaves_no_merge {ext : Collaborators} (cfg : Config) ls :
  min_text_length cfg <= 1 ->
  force_free ls ->
  forall st,
    prepended_small_chunk st = None ->
    run_leaves cfg ls st
    = (all <- gather cfg ls ;; Ok (Build_State (final_chunks st ++ all) None)).
Proof.
  intros Hmin Hfree; induction Hfree as [|l ls Hl _ IH]; intros st Hnone.
  - cbn. rewrite app_nil_r. destruct st. cbn in *. now subst.
  - rewrite run_leaves_cons. cbn [gather]. unfold emit_leaf.
    destruct (provisional cfg l) as [chunks|e] eqn:Hp; [|reflexivity].
    cbn [bind]. rewrite Hl.
    rewrite merge_fold_no_merge;
      [|exact Hmin | eapply provisional_nonempty; exact Hp | exact Hnone].
    rewrite IH by reflexivity.
    cbn [final_chunks]. destruct (gather cfg ls); cbn [bind]; [|reflexivity].
    now rewrite app_assoc.
Qed.

(** X7: with a minimum of at most 1 and no force-merge leaf nothing is
    held back: [get_chunks] returns the chunks of the leaves unchanged,
    leaf after leaf in document order, and raises what building them
    raises. *)
Theorem no_merging {ext : Collaborators} (cfg : Config) ancs node :
  min_text_length cfg <= 1 ->
  force_free (leaves cfg ancs node) ->
  get_chunks cfg ancs node = gather cfg (leaves cfg ancs node).
Proof.
  intros Hmin Hfree. unfold get_chunks. rewrite traverse_leaves.
  rewrite run_leaves_no_merge by (trivial; reflexivity).
  destruct (gather cfg (leaves cfg ancs node)); reflexivity.
Qed.

Lemma no_merging_witness :
  texts (get_chunks (ext := plain) (text_cfg 1 4) [] doc_small_then_full)
  = texts (gather (ext := plain) (text_cfg 1 4)
             (leaves (text_cfg 1 4) [] doc_small_then_full))
  /\ texts (get_chunks (ext := plain) (text_cfg 1 4) [] doc_small_then_full)
     = Ok ["abcd"%string; "e"%string; "0123"%string; "4567"%string; "89"%string].
Proof.
  split; [|reflexivity].
  rewrite (no_merging (ext := plain) (text_cfg 1 4) [] doc_small_then_full);
    [reflexivity | simpl; lia | repeat constructor].
Defined.

(** ** How many chunks are returned *)

Lemma merge_step_size (cfg : Config) force st c :
  (length (flush st) <= length (flush (merge_step cfg force st c))
   <= S (length (flush st))
   /\ 1 <= length (flush (merge_step cfg force st c)))%nat.
Proof.
  unfold merge_step, flush.
  destruct (prepended_small_chunk st); case_if;
    cbn [final_chunks prepended_small_chunk];
    rewrite ?length_app; cbn [length]; lia.
Qed.

Lemma merge_fold_size (cfg : Config) force chunks st :
  (length (flush st) <= length (flush (fold_left (merge_step cfg force) chunks st))
   <= length (flush st) + length chunks
   /\ (chunks <> [] ->
       1 <= length (flush (fold_left (merge_step cfg force) chunks st))))%nat.
Proof.
  revert st; induction chunks as [|c chunks IH]; intros st; cbn [fold_left length].
  - split; [lia|]. now intros [].
  - destruct (IH (merge_step cfg force st c)) as (Hb & _).
    pose proof (merge_step_size cfg force st c). split; [lia|]. intros _. lia.
Qed.

Lemma run_leaves_size {ext : Collaborators} (cfg : Config) ls :
  forall st st',
    run_leaves cfg ls st = Ok st' ->
    exists all,
      gather cfg ls = Ok all
      /\ (length (flush st) <= length (flush st')
          <= length (flush st) + length all
          /\ (all <> [] -> 1 <= length (flush st')))%nat.
Proof.
  induction ls as [|l ls IH]; intros st st' Hrun.
  - injection Hrun as <-. exists []. split; [reflexivity|].
    split; [cbn [length]; lia|]. now intros [].
  - apply run_leaves_cons_inv in Hrun as (chunks & Hp & Hrun).
    destruct (IH _ _ Hrun) as (rest & Hrest & Hb & Hne).
    exists (chunks ++ rest). cbn [gather]. rewrite Hp, Hrest.
    split; [reflexivity|].
    pose proof (merge_fold_size cfg (is_force_prepend_chunk (snd l)) chunks st)
      as (Hc & Hcne).
    rewrite length_app. split; [lia|]. intros Hall.
    destruct chunks as [|c chunks].
    + apply Hne. exact Hall.
    + assert (c :: chunks <> []) by discriminate. specialize (Hcne H). lia.
Qed.

(** X8: merging never adds a chunk and never loses the last one:
    [get_chunks] returns at most as many chunks as the leaves hand to
    the merger, and returns none only when they hand over none. *)
Theorem chunk_count_bounds {ext : Collaborators} (cfg : Config) ancs node out :
  get_chunks cfg ancs node = Ok out ->
  exists all,
    gather cfg (leaves cfg ancs node) = Ok all
    /\ (length out <= length all)%nat
    /\ (out = [] <-> all = []).
Proof.
  intros Hout. apply get_chunks_run in Hout as (st & Hrun & ->).
  destruct (run_leaves_size _ _ _ Hrun) as (all & Hall & Hb & Hne).
  change (length (flush init)) with 0%nat in Hb.
  exists all. split; [exact Hall|]. split; [lia|]. split.
  - intros Hnil. destruct all as [|c all]; [reflexivity|].
    assert (c :: all <> []) as Hca by discriminate.
    specialize (Hne Hca). rewrite Hnil in Hne. cbn [length] in Hne. lia.
  - intros ->. cbn [length] in Hb. apply length_zero_iff_nil. lia.
Qed.

Lemma chunk_count_bounds_witness :
  exists out all,
    get_chunks (ext := plain) (text_cfg 8 3) [] doc_lim = Ok out
    /\ gather (ext := plain) (text_cfg 8 3) (leaves (text_cfg 8 3) [] doc_lim)
       = Ok all
    /\ length out = 2%nat /\ length all = 6%nat.
Proof.
  destruct (@chunk_count_bounds plain (text_cfg 8 3) [] doc_lim _ eq_refl)
    as (all & Hall & _).
  eexists _, all. split; [reflexivity|]. split; [exact Hall|].
  injection Hall as <-. split; reflexivity.
Defined.

(** ** When [get_chunks] raises *)

Lemma hierarchy_mode_true (cfg : Config) :
  hierarchy_mode cfg = true ->
  xml_mode cfg = true /\ 0 < parent_hierarchy_levels cfg.
Proof.
  unfold hierarchy_mode. intros H. apply andb_true_iff in H as [Hx Hl].
  apply Z.ltb_lt in Hl. auto.
Qed.

Lemma emit_leaf_negative_flat {ext : Collaborators} (cfg : Config) l st :
  max_text_length cfg < 0 -> hierarchy_mode cfg = false ->
  emit_leaf cfg l st = Ok st.
Proof.
  intros Hm Hflat. unfold emit_leaf, provisional, ancestor_chunk, _build_chunks.
  rewrite node_text_splits_nonpositive by lia.
  destruct (Z.eqb_spec (max_text_length cfg) 0); [lia|].
  unfold hierarchy_mode in Hflat. rewrite Hflat. reflexivity.
Qed.

Lemma run_leaves_negative_flat {ext : Collaborators} (cfg : Config) ls st :
  max_text_length cfg < 0 -> hierarchy_mode cfg = false ->
  run_leaves cfg ls st = Ok st.
Proof.
  intros Hm Hflat. induction ls as [|l ls IH]; [reflexivity|].
  rewrite run_leaves_cons, emit_leaf_negative_flat by assumption. exact IH.
Qed.

(** X9: with a maximum of 0 or less [get_chunks] gives no chunk at all.
    On a tree without leaf it returns the empty list; otherwise it
    raises [ValueError] for a zero maximum and, for a negative one,
    raises [IndexError] in hierarchy mode and returns the empty list
    outside it. *)
Theorem nonpositive_maximum {ext : Collaborators} (cfg : Config) ancs node :
  max_text_length cfg <= 0 ->
  get_chunks cfg ancs node
  = match leaves cfg ancs node with
    | [] => Ok []
    | _ :: _ =>
        if max_text_length cfg =? 0 then Raise ValueError
        else if hierarchy_mode cfg then Raise IndexError
        else Ok []
    end.
Proof.
  intros Hm. unfold get_chunks. rewrite traverse_leaves.
  destruct (leaves cfg ancs node) as [|l ls]; [reflexivity|].
  destruct (Z.eqb_spec (max_text_length cfg) 0) as [H0|H0].
  - rewrite run_leaves_cons, emit_leaf_zero_maximum by exact H0. reflexivity.
  - destruct (hierarchy_mode cfg) eqn:Hh.
    + apply hierarchy_mode_true in Hh as [Hx Hl].
      rewrite run_leaves_cons, emit_leaf_negative_maximum by (trivial; lia).
      reflexivity.
    + rewrite run_leaves_negative_flat by (trivial; lia). reflexivity.
Qed.

Lemma nonpositive_maximum_witness :
  get_chunks (ext := plain) (text_cfg 8 (-3)) [] doc_lim = Ok []
  /\ get_chunks (ext := plain) (xml_cfg 8 (-3) 2) [] doc_lim = Raise IndexError
  /\ get_chunks (ext := plain) (xml_cfg 8 0 2) [] doc_lim = Raise ValueError.
Proof.
  split; [|split].
  - rewrite (nonpositive_maximum (ext := plain) (text_cfg 8 (-3)) [] doc_lim);
      [reflexivity | simpl; lia].
  - rewrite (nonpositive_maximum (ext := plain) (xml_cfg 8 (-3) 2) [] doc_lim);
      [reflexivity | simpl; lia].
  - rewrite (nonpositive_maximum (ext := plain) (xml_cfg 8 0 2) [] doc_lim);
      [reflexivity | simpl; lia].
Defined.

Lemma emit_leaf_hierarchy_returns {ext : Collaborators} (cfg : Config) l st :
  0 < max_text_length cfg -> hierarchy_mode cfg = true ->
  render cfg (xml_nth_ancestor l (parent_hierarchy_levels cfg)) <> [] ->
  exists st', emit_leaf cfg l st = Ok st'.
Proof.
  intros Hm Hh Hne. unfold emit_leaf, provisional, ancestor_chunk.
  destruct (build_chunks_texts cfg l Hm) as (subs & -> & _).
  unfold hierarchy_mode in Hh. rewrite Hh. cbn [bind].
  destruct (build_chunks_texts cfg
              (xml_nth_ancestor l (parent_hierarchy_levels cfg)) Hm)
    as (cs & Hcs & _).
  pose proof (build_chunks_concat _ _ Hm Hcs) as Hcat. rewrite Hcs.
  destruct cs as [|c cs].
  - cbn [map concat] in Hcat. symmetry in Hcat. contradiction.
  - cbn. eauto.
Qed.

(** X10: in hierarchy mode with a positive maximum, [get_chunks] returns
    exactly when the context ancestor of every leaf renders to a
    non-empty text. *)
Theorem hierarchy_returns_iff {ext : Collaborators} (cfg : Config) ancs node :
  0 < max_text_length cfg ->
  hierarchy_mode cfg = true ->
  (exists out, get_chunks cfg ancs node = Ok out)
  <-> Forall (fun l => render cfg (xml_nth_ancestor l
                                     (parent_hierarchy_levels cfg)) <> [])
             (leaves cfg ancs node).
Proof.
  intros Hm Hh. unfold get_chunks. rewrite traverse_leaves.
  generalize (leaves cfg ancs node) as ls. generalize init as st.
  intros st ls; revert st. induction ls as [|l ls IH]; intros st.
  - split; [constructor | intros _; cbn; eauto].
  - rewrite run_leaves_cons. split.
    + intros (out & Hout).
      destruct (emit_leaf cfg l st) as [mid|e] eqn:Hl; [|discriminate Hout].
      constructor.
      * intros Hempty. apply hierarchy_mode_true in Hh as [Hx Hlv].
        rewrite (emit_leaf_empty_context cfg l st Hx Hlv Hm Hempty) in Hl.
        discriminate Hl.
      * apply (IH mid). exists out. exact Hout.
    + intros Hall.
      destruct (emit_leaf_hierarchy_returns cfg l st Hm Hh (Forall_inv Hall))
        as (mid & ->).
      cbn [bind]. apply IH. exact (Forall_inv_tail Hall).
Qed.

Lemma hierarchy_returns_iff_witness :
  (exists out,
     get_chunks (ext := plain) (xml_cfg 8 10 1) [] doc_lim = Ok out)
  /\ ~ Forall (fun l => render (ext := own_text) (xml_cfg 8 10 1)
                          (xml_nth_ancestor l 1) <> [])
              (leaves (xml_cfg 8 10 1) [] doc_lim).
Proof.
  split.
  - apply (hierarchy_returns_iff (ext := plain) (xml_cfg 8 10 1) [] doc_lim);
      [reflexivity | reflexivity |].
    repeat constructor; discriminate.
  - intros H.
    apply (hierarchy_returns_iff (ext := own_text) (xml_cfg 8 10 1) [] doc_lim)
      in H; [|reflexivity|reflexivity].
    destruct H as (out & Hout). discriminate Hout.
Defined.

Lemma build_chunks_raise_inv {ext : Collaborators} (cfg : Config) l e :
  _build_chunks cfg l = Raise e -> e = ValueError /\ max_text_length cfg = 0.
Proof.
  unfold _build_chunks, node_text_splits, py_range.
  destruct (Z.eqb_spec (max_text_length cfg) 0); [|discriminate].
  cbn. intros H. injection H as <-. auto.
Qed.

Lemma emit_leaf_raise_inv {ext : Collaborators} (cfg : Config) l st e :
  emit_leaf cfg l st = Raise e ->
  (e = ValueError /\ max_text_length cfg = 0)
  \/ (e = IndexError /\ hierarchy_mode cfg = true /\ max_text_length cfg <> 0).
Proof.
  unfold emit_leaf, provisional.
  destruct (_build_chunks cfg l) as [subs|e0] eqn:Hb; cbn [bind].
  - assert (Hm : max_text_length cfg <> 0).
    { intros H0. rewrite build_chunks_zero_maximum in Hb by exact H0.
      discriminate Hb. }
    unfold ancestor_chunk. fold (hierarchy_mode cfg).
    destruct (hierarchy_mode cfg); [|discriminate].
    destruct (_build_chunks cfg
                (xml_nth_ancestor l (parent_hierarchy_levels cfg)))
      as [cs|e1] eqn:Hup; cbn [bind].
    + destruct cs as [|c cs]; cbn; [|discriminate].
      intros H. injection H as <-. right. auto.
    + apply build_chunks_raise_inv in Hup as [_ H0]. contradiction.
  - intros H. injection H as <-. left. eapply build_chunks_raise_inv. exact Hb.
Qed.

(** X11: [get_chunks] raises [ValueError] only for a zero maximum, and
    [IndexError] only in hierarchy mode with a non-zero maximum; it
    raises nothing else. *)
Theorem raise_provenance {ext : Collaborators} (cfg : Config) ancs node e :
  get_chunks cfg ancs node = Raise e ->
  (e = ValueError /\ max_text_length cfg = 0)
  \/ (e = IndexError /\ hierarchy_mode cfg = true /\ max_text_length cfg <> 0).
Proof.
  unfold get_chunks. rewrite traverse_leaves.
  generalize (leaves cfg ancs node) as ls. generalize init as st.
  intros st ls; revert st. induction ls as [|l ls IH]; intros st.
  - discriminate.
  - rewrite run_leaves_cons.
    destruct (emit_leaf cfg l st) as [mid|e0] eqn:Hl; cbn [bind].
    + apply IH.
    + intros H. injection H as <-. eapply emit_leaf_raise_inv. exact Hl.
Qed.

Lemma raise_provenance_witness :
  hierarchy_mode (xml_cfg 8 (-1) 1) = true
  /\ max_text_length (xml_cfg 8 (-1) 1) <> 0.
Proof.
  destruct (@raise_provenance plain (xml_cfg 8 (-1) 1) [] doc_small_then_full
              IndexError eq_refl) as [[H _]|[_ H]].
  - discriminate H.
  - exact H.
Defined.

(** ** Force-merge leaves as a whole *)

Lemma merge_fold_forced (cfg : Config) chunks st :
  final_chunks (fold_left (merge_step cfg true) chunks st) = final_chunks st
  /\ pending_text (fold_left (merge_step cfg true) chunks st)
     = pending_text st ++ concat (map Chunk.text chunks)
  /\ (chunks <> [] ->
      prepended_small_chunk (fold_left (merge_step cfg true) chunks st) <> None).
Proof.
  revert st; induction chunks as [|c chunks IH]; intros st; cbn [fold_left].
  - rewrite app_nil_r. repeat split. now intros [].
  - destruct (IH (merge_step cfg true st c)) as (Hfin & Htext & Hsome).
    destruct (merge_step_forced cfg st c) as (Hfin1 & b & Hb & Htext1).
    split; [congruence|]. split.
    + rewrite Htext. cbn [map concat]. rewrite app_assoc. f_equal.
      unfold pending_text at 1, pending. rewrite Hb. cbn [map concat].
      now rewrite app_nil_r.
    + intros _. destruct chunks as [|c2 chunks].
      * cbn [fold_left]. rewrite Hb. discriminate.
      * apply Hsome. discriminate.
Qed.

(** X12: a force-merge leaf is not cut at [max_text_length]: processing
    it emits nothing, and all its windows go to the pending buffer one
    behind the other, so that afterwards the buffer holds what was
    pending followed by the whole rendered text of the leaf. *)
Theorem force_leaf_buffered {ext : Collaborators} (cfg : Config) l st st' :
  0 < max_text_length cfg ->
  is_force_prepend_chunk (snd l) = true ->
  emit_leaf cfg l st = Ok st' ->
  final_chunks st' = final_chunks st
  /\ pending_text st' = pending_text st ++ render cfg l
  /\ (render cfg l <> [] -> prepended_small_chunk st' <> None).
Proof.
  intros Hm Hforce Hemit. unfold emit_leaf in Hemit.
  apply bind_Ok_inv in Hemit as (chunks & Hp & Hst').
  injection Hst' as <-. rewrite Hforce.
  destruct (merge_fold_forced cfg chunks st) as (Hfin & Htext & Hsome).
  apply provisional_inv in Hp as (subs & ac & Hs & _ & ->).
  rewrite set_parent_texts, (build_chunks_concat _ _ Hm Hs) in Htext.
  split; [exact Hfin|]. split; [exact Htext|].
  intros Hne. apply Hsome. intros Hnil. apply Hne.
  rewrite <- (build_chunks_concat _ _ Hm Hs).
  apply map_eq_nil in Hnil. now rewrite Hnil.
Qed.

Lemma force_leaf_buffered_witness :
  exists st',
    emit_leaf (ext := plain) (text_cfg 1 10) ([], marked "lim" "lim" (filled 50)) init
    = Ok st'
    /\ final_chunks st' = []
    /\ len (pending_text st') = 50.
Proof.
  destruct (@force_leaf_buffered plain (text_cfg 1 10)
              ([], marked "lim" "lim" (filled 50)) init _
              eq_refl eq_refl eq_refl) as (Hfin & Htext & _).
  eexists. split; [reflexivity|]. split; [exact Hfin|].
  rewrite Htext. reflexivity.
Defined.

Lemma run_leaves_forced {ext : Collaborators} (cfg : Config) ls :
  all_forced ls ->
  forall st st',
    run_leaves cfg ls st = Ok st' -> final_chunks st' = final_chunks st.
Proof.
  intros Hall; induction Hall as [|l ls Hl _ IH]; intros st st' Hrun.
  - now injection Hrun as <-.
  - apply run_leaves_cons_inv in Hrun as (chunks & _ & Hrun).
    rewrite (IH _ _ Hrun), Hl. apply merge_fold_forced.
Qed.

(** X13: when every leaf is force-merge, nothing is emitted during the
    traversal and [get_chunks] returns at most one chunk, the flushed
    buffer, whatever the maximum. *)
Theorem all_forced_single_chunk {ext : Collaborators} (cfg : Config) ancs node out :
  all_forced (leaves cfg ancs node) ->
  get_chunks cfg ancs node = Ok out ->
  (length out <= 1)%nat
  /\ exists st,
       _traverse cfg ancs node init = Ok st
       /\ final_chunks st = [] /\ out = pending st.
Proof.
  intros Hall Hout. apply get_chunks_run in Hout as (st & Hrun & ->).
  pose proof (@run_leaves_forced ext cfg _ Hall _ _ Hrun) as Hfin.
  cbn in Hfin.
  rewrite flush_pending, Hfin. cbn [app]. split.
  - unfold pending. destruct (prepended_small_chunk st); cbn [length]; lia.
  - exists st. rewrite traverse_leaves. auto.
Qed.

Lemma all_forced_single_chunk_witness :
  lengths (get_chunks (ext := plain) (text_cfg 8 10) []
             (elem "ol" [marked "lim" "lim" (filled 25); lim_item]))
  = Ok [27].
Proof.
  destruct (@all_forced_single_chunk plain (text_cfg 8 10) []
              (elem "ol" [marked "lim" "lim" (filled 25); lim_item]) _
              ltac:(repeat constructor) eq_refl) as (_ & st & Hst & _ & _).
  injection Hst as <-. reflexivity.
Defined.

(** ** What no returned chunk has *)

Lemma run_leaves_all {ext : Collaborators} (P : Chunk -> Prop) (cfg : Config) ls :
  (forall p c, P c -> P (Chunk.add p c)) ->
  (forall l chunks, provisional cfg l = Ok chunks -> Forall P chunks) ->
  forall st st',
    run_leaves cfg ls st = Ok st' ->
    Forall P (final_chunks st ++ pending st) ->
    Forall P (final_chunks st' ++ pending st').
Proof.
  intros Hadd Hprov. induction ls as [|l ls IH]; intros st st' Hrun Hst.
  - now injection Hrun as <-.
  - apply run_leaves_cons_inv in Hrun as (chunks & Hp & Hrun).
    eapply IH; [exact Hrun|]. apply merge_fold_all; eauto.
Qed.

Lemma ancestor_chunk_flat {ext : Collaborators} (cfg : Config) l :
  hierarchy_mode cfg = false -> ancestor_chunk cfg l = Ok None.
Proof.
  intros Hflat. unfold ancestor_chunk. unfold hierarchy_mode in Hflat.
  now rewrite Hflat.
Qed.

(** X14: outside hierarchy mode no returned chunk has a parent, also
    with [parent_hierarchy_levels > 0] in plain-text mode, where the
    branch of line 155 does nothing, and with a negative
    [parent_hierarchy_levels]; and no context ancestor is looked up.
    ([Chunk.__add__] as modelled from section 4.3 of the
    specification.) *)
Theorem flat_mode_no_parent {ext : Collaborators} (cfg : Config) ancs node out :
  hierarchy_mode cfg = false ->
  get_chunks cfg ancs node = Ok out ->
  Forall (fun q => Chunk.parent q = None) out
  /\ Forall (fun l => ancestor_chunk cfg l = Ok None) (leaves cfg ancs node).
Proof.
  intros Hflat Hout. split.
  - apply get_chunks_parents in Hout. revert Hout. apply Forall_impl.
    intros q (l & _ & Hac). rewrite ancestor_chunk_flat in Hac by exact Hflat.
    congruence.
  - apply Forall_forall. intros l _. now apply ancestor_chunk_flat.
Qed.

Lemma flat_mode_no_parent_witness :
  exists out,
    get_chunks (ext := plain)
      (Build_Config 8 10 true false false 3) [] doc_lim = Ok out
    /\ Forall (fun q => Chunk.parent q = None) out.
Proof.
  eexists. split; [reflexivity|].
  apply (@flat_mode_no_parent plain (Build_Config 8 10 true false false 3) []
           doc_lim _ eq_refl eq_refl).
Defined.

(** X15: no returned chunk has an empty text: a leaf whose rendering is
    empty contributes nothing, and merging only makes texts longer.
    ([Chunk.__add__] as modelled from section 4.3 of the
    specification.) *)
Theorem no_empty_chunk {ext : Collaborators} (cfg : Config) ancs node out :
  get_chunks cfg ancs node = Ok out ->
  Forall (fun q => 0 < len (Chunk.text q)) out.
Proof.
  intros Hout. apply get_chunks_run in Hout as (st & Hrun & ->).
  rewrite flush_pending.
  eapply (@run_leaves_all ext (fun q => 0 < len (Chunk.text q)));
    [| | exact Hrun | constructor].
  - intros p c Hc. cbn [Chunk.add Chunk.text]. rewrite len_app.
    pose proof (len_nonneg (Chunk.text p)). lia.
  - intros l chunks Hp. eapply provisional_nonempty. exact Hp.
Qed.

Lemma no_empty_chunk_witness :
  exists out,
    get_chunks (ext := plain) (text_cfg 8 10) []
      (elem "doc" [marked "p" "p" "p"; marked "p" "p" "abc"]) = Ok out
    /\ Forall (fun q => 0 < len (Chunk.text q)) out.
Proof.
  eexists. split; [reflexivity|].
  apply (@no_empty_chunk plain (text_cfg 8 10) []
           (elem "doc" [marked "p" "p" "p"; marked "p" "p" "abc"]) _ eq_refl).
Defined.
